(** * Laconic Applications UI: record list pipeline, address codec,
      fetch lifecycle and URL reachability probing

    A shallow embedding of the logic of
      - [src/components/Applist.tsx] (list view: [getAuthority],
        [hexToBech32], [stats], [filteredAndSortedApps], [fetchApps]),
      - the application detail page ([fetchDeployments], [checkUrls],
        [UrlList]),
      - [src/app/api/check-url/route.ts] ([GET]),
    together with the properties the specification states about them.

    Conventions.  A JavaScript string is a [string] (a sequence of code
    units); [undefined] results of array indexing and optional fields are
    [option]; a [Date] is its time value, [option Z] with [None] for NaN
    (Invalid Date); a promise that settles is the value it settles with, a
    rejection being a constructor of the outcome type. *)

From Stdlib Require Import ZArith List String Ascii Bool Lia Permutation Sorted.
From stdpp Require Import base gmap strings list fin_maps.
Import ListNotations.

#[local] Set Warnings "-register-all,-clear-no-such-hyp".
Local Open Scope string_scope.
Local Open Scope list_scope.

(* ===================================================================== *)
(** ** JavaScript strings and values                                      *)
(* ===================================================================== *)

Module Js.

(** [s.startsWith(p)] *)
Definition startsWith (s p : string) : bool := String.prefix p s.

(** [s.split(sep)] for a one-character separator.  The result is never
    empty: a string without separator is returned as its only segment,
    and the empty string splits into one empty segment. *)
Fixpoint split (sep : ascii) (s : string) : list string :=
  match s with
  | EmptyString => [EmptyString]
  | String c s' =>
      if Ascii.eqb c sep then EmptyString :: split sep s'
      else match split sep s' with
           | [] => [String c EmptyString]
           | p :: ps => String c p :: ps
           end
  end.

(** [s.includes(t)]: [t] occurs in [s] at some position. *)
Fixpoint includes (s t : string) : bool :=
  if String.prefix t s then true
  else match s with
       | EmptyString => false
       | String _ s' => includes s' t
       end.

(** Case mapping of one code unit: the letters [A]..[Z] go to [a]..[z],
    every other unit is kept. *)
Definition lower_unit (c : ascii) : ascii :=
  let n := nat_of_ascii c in
  if (65 <=? n)%nat && (n <=? 90)%nat then ascii_of_nat (n + 32) else c.

(** Text of ASCII code units (below 128) only. *)
Definition isAscii (s : string) : bool :=
  forallb (fun c => (nat_of_ascii c <? 128)%nat) (list_ascii_of_string s).

(** [s.toLowerCase()] on ASCII text: the letters [A]..[Z] go to [a]..[z]
    unit by unit, which is what the Unicode case mapping of the language
    does on such text.  On other text the mapping of the language is
    Unicode's, which also changes units above 127 and looks at the
    context of a letter (the final sigma), so that it does not act unit
    by unit; units above 127 are kept here, and that mapping is not
    modelled.  The statements that depend on how particular text is
    mapped are made for ASCII text ([isAscii]); the others hold for any
    mapping. *)
Fixpoint toLowerCase (s : string) : string :=
  match s with
  | EmptyString => EmptyString
  | String c s' => String (lower_unit c) (toLowerCase s')
  end.

(** Truthiness of a string: every string but the empty one. *)
Definition truthy (s : string) : bool := negb (String.eqb s "").

(** [x || d] where [x] is a string or [undefined]: [d] replaces
    [undefined] and the empty string. *)
Definition or_else (x : option string) (d : string) : string :=
  match x with
  | Some s => if truthy s then s else d
  | None => d
  end.

End Js.

(* ===================================================================== *)
(** ** Library functions the list view calls                              *)
(* ===================================================================== *)

(** The outcome of a call that may throw. *)
Inductive completion (A : Type) : Type :=
| Normal (a : A)
| Throws (msg : string).
Arguments Normal {A} a.
Arguments Throws {A} msg.

(** 32-bit integer operators of JavaScript on [Z]. *)
Module Int32.

Local Open Scope Z_scope.

(** [ToInt32]: wrap into [-2^31, 2^31). *)
Definition wrap (z : Z) : Z := (z + 2 ^ 31) mod 2 ^ 32 - 2 ^ 31.

(** [x << n] *)
Definition shl (x n : Z) : Z := wrap (Z.shiftl x n).
(** [x >> n] *)
Definition sar (x n : Z) : Z := Z.shiftr x n.
(** [-x] on a 32-bit value *)
Definition neg (x : Z) : Z := wrap (- x).

End Int32.

(** [Buffer.from(s, 'hex')], a built-in of the Node.js runtime.  The
    decoder reads two digits per byte; as the documentation of the 'hex'
    encoding states, the data is truncated at the first pair that is not
    two hexadecimal digits (a trailing single digit is dropped too).  No
    exception is raised for a string argument.

    In a browser bundle [Buffer] is the [buffer] package instead, which
    reads each pair with [parseInt(pair, 16)] and stops at the first pair
    that gives NaN.  The two decoders agree on a pair of two hexadecimal
    digits, and both stop at a pair whose first character is a printable
    character other than a hexadecimal digit and a sign ([stops]); they
    differ on a pair such as [1g] or a blank followed by a digit, which
    [parseInt] reads as a number.  The statements on text that is not
    hexadecimal are made where the two agree. *)
Module Buffer.

Local Open Scope Z_scope.

Definition unhex (c : ascii) : option Z :=
  let n := Z.of_nat (nat_of_ascii c) in
  if (48 <=? n) && (n <=? 57) then Some (n - 48)
  else if (65 <=? n) && (n <=? 70) then Some (n - 55)
  else if (97 <=? n) && (n <=? 102) then Some (n - 87)
  else None.

Fixpoint from_hex (s : string) : list Z :=
  match s with
  | String a (String b rest) =>
      match unhex a, unhex b with
      | Some hi, Some lo => (16 * hi + lo) :: from_hex rest
      | _, _ => []
      end
  | _ => []
  end.

(** A valid hexadecimal string: an even number of hexadecimal digits. *)
Fixpoint isHex (s : string) : bool :=
  match s with
  | EmptyString => true
  | String a (String b rest) =>
      match unhex a, unhex b with
      | Some _, Some _ => isHex rest
      | _, _ => false
      end
  | String _ EmptyString => false
  end.

(** A character at which decoding stops whatever follows it: a printable
    ASCII character (33..126) that is no hexadecimal digit, and neither
    [+] nor [-], which [parseInt] reads as a sign. *)
Definition stops (c : ascii) : bool :=
  let n := Z.of_nat (nat_of_ascii c) in
  (33 <=? n) && (n <=? 126) && negb (n =? 43) && negb (n =? 45)
  && match unhex c with Some _ => false | None => true end.

(** Text that holds no further byte: empty, or beginning with a character
    at which decoding stops. *)
Definition endsData (rest : string) : bool :=
  match rest with
  | EmptyString => true
  | String c _ => stops c
  end.

End Buffer.

(** [toWords] and [encode] of the [bech32] package (version 2) that the
    list view imports, after the package's [convert], [polymodStep],
    [prefixChk] and [encode]: the bytes are repacked into 5-bit groups,
    most significant bit first, the last group padded with zeros; each
    group is mapped through the 32-character alphabet; the six-character
    checksum of the encoding family is appended; all of it is prefixed with
    the human-readable part and the separator [1] (section 4.1 of the
    specification). *)
Module Bech32.

Local Open Scope Z_scope.
Import Int32.

Definition ALPHABET : string := "qpzry9x8gf2tvdw0s3jn54khce6mua7l".

(** [s.charAt(i)] *)
Definition charAt (s : string) (i : Z) : string :=
  if i <? 0 then ""
  else match String.get (Z.to_nat i) s with
       | Some c => String c EmptyString
       | None => ""
       end.

Definition polymodStep (pre : Z) : Z :=
  let b := sar pre 25 in
  Z.lxor (shl (Z.land pre 0x1ffffff) 5)
  (Z.lxor (Z.land (neg (Z.land (sar b 0) 1)) 0x3b6a57b2)
  (Z.lxor (Z.land (neg (Z.land (sar b 1) 1)) 0x26508e6d)
  (Z.lxor (Z.land (neg (Z.land (sar b 2) 1)) 0x1ea119fa)
  (Z.lxor (Z.land (neg (Z.land (sar b 3) 1)) 0x3d4233dd)
          (Z.land (neg (Z.land (sar b 4) 1)) 0x2a1462b3))))).

Definition charCode (c : ascii) : Z := Z.of_nat (nat_of_ascii c).

(** [prefixChk]: the checksum state after the human-readable part, or the
    error text for a character outside 33..126. *)
Definition prefixChk (prefix : string) : completion Z :=
  let units := list_ascii_of_string prefix in
  if forallb (fun c => negb ((charCode c <? 33) || (126 <? charCode c))) units
  then
    let chk1 := fold_left (fun chk c => Z.lxor (polymodStep chk) (sar (charCode c) 5)) units 1 in
    let chk2 := polymodStep chk1 in
    Normal (fold_left (fun chk c => Z.lxor (polymodStep chk) (Z.land (charCode c) 0x1f)) units chk2)
  else Throws ("Invalid prefix (" +:+ prefix +:+ ")").

(** The inner [while (bits >= outBits)] loop of [convert]. *)
Fixpoint convert_drain (fuel : nat) (value bits outBits maxV : Z) (result : list Z)
  : Z * list Z :=
  match fuel with
  | O => (bits, result)
  | S fuel' =>
      if bits >=? outBits then
        let bits' := bits - outBits in
        convert_drain fuel' value bits' outBits maxV
          (result ++ [Z.land (sar value bits') maxV])
      else (bits, result)
  end.

(** [convert(data, inBits, outBits, true)] *)
Definition convert_pad (data : list Z) (inBits outBits : Z) : list Z :=
  let maxV := shl 1 outBits - 1 in
  let '(value, bits, result) :=
    fold_left
      (fun (st : Z * Z * list Z) (byte : Z) =>
         let '(value, bits, result) := st in
         let value := Z.lor (shl value inBits) byte in
         let bits := bits + inBits in
         let '(bits, result) :=
           convert_drain (Z.to_nat bits) value bits outBits maxV result in
         (value, bits, result))
      data (0, 0, []) in
  if 0 <? bits
  then result ++ [Z.land (shl value (outBits - bits)) maxV]
  else result.

Definition toWords (bytes : list Z) : list Z := convert_pad bytes 8 5.

(** The loop of [encode] over the words: the checksum state and the text
    so far, or the error for a word that does not fit in 5 bits. *)
Fixpoint encode_words (words : list Z) (chk : Z) (result : string)
  : completion (Z * string) :=
  match words with
  | [] => Normal (chk, result)
  | x :: rest =>
      if sar x 5 =? 0
      then encode_words rest (Z.lxor (polymodStep chk) x) (result +:+ charAt ALPHABET x)
      else Throws "Non 5-bit word"
  end.

(** [bech32.encode(prefix, words)] with the default limit of 90. *)
Definition encode (prefix : string) (words : list Z) : completion string :=
  let LIMIT := 90 in
  if LIMIT <? Z.of_nat (String.length prefix) + 7 + Z.of_nat (List.length words)
  then Throws "Exceeds length limit"
  else
    let prefix := Js.toLowerCase prefix in
    match prefixChk prefix with
    | Throws msg => Throws msg
    | Normal chk =>
        match encode_words words chk (prefix +:+ "1") with
        | Throws msg => Throws msg
        | Normal (chk, result) =>
            let chk := Nat.iter 6 polymodStep chk in
            let chk := Z.lxor chk 1 in
            Normal
              (fold_left
                 (fun result i =>
                    let v := Z.land (sar chk ((5 - i) * 5)) 0x1f in
                    result +:+ charAt ALPHABET v)
                 [0; 1; 2; 3; 4; 5] result)
        end
    end.

End Bech32.

(** The built-ins of the JavaScript runtime that depend on the host: date
    parsing, the local time zone and the collation of the locale. *)
Record Host := mkHost {
  (** [new Date(text).getTime()]: the time value in milliseconds, [None]
      for an Invalid Date *)
  Date_parse : string -> option Z;
  (** the abstract operations [LocalTime] and [UTC] of ECMAScript *)
  LocalTime : Z -> Z;
  UTC : Z -> Z;
  (** [a.localeCompare(b)] *)
  localeCompare : string -> string -> Z
}.

Module JsDate.

Local Open Scope Z_scope.

Definition msPerDay : Z := 86400000.

(** [TimeClip]: a time value beyond 8.64e15 ms becomes NaN. *)
Definition TimeClip (t : Z) : option Z :=
  if Z.abs t <=? 8640000000000000 then Some t else None.

(** [d.setDate(d.getDate() + days)] on a date with time value [t].
    [getDate] is the day of the month of [LocalTime t]; [setDate dt]
    stores [TimeClip (UTC (MakeDate (MakeDay y m dt) (TimeWithinDay lt)))]
    for [lt = LocalTime t] in year [y] and month [m], and [MakeDay] with
    the day of the month moved by [days] is the day number of [lt] moved
    by [days]: the local time moves by whole days. *)
Definition addDays (h : Host) (t : Z) (days : Z) : option Z :=
  TimeClip (UTC h (LocalTime h t + days * msPerDay)).

(** [a > b] and [a < b] on dates: numeric comparison of the time values,
    false when one is NaN. *)
Definition gt (a b : option Z) : bool :=
  match a, b with
  | Some x, Some y => y <? x
  | _, _ => false
  end.

Definition lt (a b : option Z) : bool :=
  match a, b with
  | Some x, Some y => x <? y
  | _, _ => false
  end.

(** [a - b] on numbers that may be NaN. *)
Definition sub (a b : option Z) : option Z :=
  match a, b with
  | Some x, Some y => Some (x - y)
  | _, _ => None
  end.

End JsDate.

(** [Set] of strings: the elements in insertion order, each once. *)
Module JsSet.

Definition add (s : list string) (x : string) : list string :=
  if bool_decide (x ∈ s) then s else s ++ [x].

(** [new Set(array)] *)
Definition of_array (l : list string) : list string := fold_left add l [].

(** [set.size] *)
Definition size (s : list string) : nat := List.length s.

End JsSet.

Module JsArray.

Local Open Scope Z_scope.

Section Sort.
Context {A : Type}.
(** the comparator; [None] is a NaN result, which [sort] reads as 0 *)
Variable compareFn : A -> A -> option Z.

Definition after (a b : A) : bool :=
  match compareFn a b with
  | Some v => 0 <? v
  | None => false
  end.

Fixpoint insert (x : A) (sorted : list A) : list A :=
  match sorted with
  | [] => [x]
  | y :: rest => if after x y then y :: insert x rest else x :: y :: rest
  end.

(** [array.sort(compareFn)]: a stable sort; an element stays before the
    later elements it does not compare greater than.

    The language fixes the result of [sort] for a consistent comparator
    only (one that orders the elements, equal ones forming classes): the
    elements in ascending order, equal ones in their former order, which
    is what this insertion sort returns.  For an inconsistent comparator,
    as [compareApps] is by creation time when a date is invalid (the NaN
    it returns makes that record equal to all others), the order is left
    to the engine; all that is used of [sort] in that case is that its
    result holds the same elements.  Statements on the order are made
    for consistent comparators. *)
Definition sort (l : list A) : list A := fold_right insert [] l.
End Sort.

End JsArray.


(** JSON-like run-time values: what a response body can hold. *)
Inductive value : Type :=
| VUndefined
| VNull
| VBool (b : bool)
| VNumber (n : Z)
| VString (s : string)
| VArray (items : list value)
| VObject (fields : list (string * value)).

Module JsValue.

(** [v[k]] for a key that is not a built-in property: a [TypeError] on
    [undefined] and [null], the field of an object, [undefined] elsewhere. *)
Definition get (v : value) (k : string) : completion value :=
  match v with
  | VUndefined | VNull => Throws "TypeError"
  | VObject fields =>
      Normal (match List.find (fun f => String.eqb (fst f) k) fields with
              | Some f => snd f
              | None => VUndefined
              end)
  | _ => Normal VUndefined
  end.

(** [ToBoolean] *)
Definition truthy (v : value) : bool :=
  match v with
  | VUndefined | VNull => false
  | VBool b => b
  | VNumber n => negb (n =? 0)%Z
  | VString s => Js.truthy s
  | VArray _ | VObject _ => true
  end.

End JsValue.

(** Statements with a component state and exceptions: [try], [catch],
    [finally], [throw] and state updates. *)
Module Eff.

Definition M (S A : Type) : Type := S -> S * completion A.

Definition ret {S A} (a : A) : M S A := fun s => (s, Normal a).

Definition bind {S A B} (c : M S A) (k : A -> M S B) : M S B :=
  fun s =>
    match c s with
    | (s', Normal a) => k a s'
    | (s', Throws msg) => (s', Throws msg)
    end.

Definition throw {S A} (msg : string) : M S A := fun s => (s, Throws msg).

(** An expression that may throw, evaluated in the current state. *)
Definition eval {S A} (c : completion A) : M S A := fun s => (s, c).

Definition modify {S} (f : S -> S) : M S unit := fun s => (f s, Normal tt).

(** [try { body } catch (error) { handler }] *)
Definition try_catch {S A} (body : M S A) (handler : string -> M S A) : M S A :=
  fun s =>
    match body s with
    | (s', Throws msg) => handler msg s'
    | done => done
    end.

(** [try { body } finally { cleanup }] *)
Definition try_finally {S A} (body : M S A) (cleanup : M S unit) : M S A :=
  fun s =>
    let '(s', r) := body s in
    match cleanup s' with
    | (s'', Normal _) => (s'', r)
    | (s'', Throws msg) => (s'', Throws msg)
    end.

End Eff.

Notation "'do' x <- c1 ; c2" := (Eff.bind c1 (fun x => c2))
  (at level 10, x name, c1 at level 100, c2 at level 200).
Notation "'exec' c1 ; c2" := (Eff.bind c1 (fun _ => c2))
  (at level 10, c1 at level 100, c2 at level 200).

(* ===================================================================== *)
(** ** The list view, [src/components/Applist.tsx]                        *)
(* ===================================================================== *)

Module Applist.

(** One entry of [attributes]: [{ key; value: { string? } }]. *)
Record Attribute := mkAttribute {
  key : string;
  value_string : option string
}.

Record ApplicationRecord := mkApplicationRecord {
  id : string;
  bondId : string;
  createTime : string;
  expiryTime : string;
  names : list string;
  owners : list string;
  attributes : list Attribute
}.

Inductive SortOption := time | name | authority | owner.

(** [getAuthority], lines 70-77. *)
Definition getAuthority (names : list string) : string :=
  match List.find (fun name => Js.startsWith name "lrn://") names with
  | Some lrnName =>
      if Js.truthy lrnName then
        let parts := Js.split "/" lrnName in
        Js.or_else (nth_error parts 2) "Unknown"
      else "Unknown"
  | None => "Unknown"
  end.

(** The derivation as the specification words it: the segment at index 2
    of the first [lrn://] name, and "Unknown" only when there is no such
    name or the split has fewer than three segments. *)
Definition authority_as_specified (names : list string) : string :=
  match List.find (fun name => Js.startsWith name "lrn://") names with
  | Some lrnName =>
      match nth_error (Js.split "/" lrnName) 2 with
      | Some segment => segment
      | None => "Unknown"
      end
  | None => "Unknown"
  end.

(** [hexToBech32], lines 79-87.  The [catch] branch returns the argument
    (after logging). *)
Definition hexToBech32 (hexAddress : string) : string :=
  match Bech32.encode "laconic" (Bech32.toWords (Buffer.from_hex hexAddress)) with
  | Normal encoded => encoded
  | Throws _ => hexAddress
  end.

(** [app.attributes.find(attr => attr.key === k)?.value.string] *)
Definition attributeString (k : string) (app : ApplicationRecord) : option string :=
  match List.find (fun attr => String.eqb (key attr) k) (attributes app) with
  | Some attr => value_string attr
  | None => None
  end.

(** The name shown on a card, line 199. *)
Definition displayName (app : ApplicationRecord) : string :=
  Js.or_else (attributeString "name" app) "Unnamed App".

(** [app.owners[0] || ''] *)
Definition firstOwner (app : ApplicationRecord) : string :=
  Js.or_else (nth_error (owners app) 0) "".

(** The callback of [recentlyCreated], lines 92-97, at clock reading [now]. *)
Definition isRecentlyCreated (h : Host) (now : Z) (app : ApplicationRecord) : bool :=
  let creationDate := Date_parse h (createTime app) in
  let thirtyDaysAgo := JsDate.addDays h now (-30) in
  JsDate.gt creationDate thirtyDaysAgo.

(** The callback of [soonExpiring], lines 98-103. *)
Definition isSoonExpiring (h : Host) (now : Z) (app : ApplicationRecord) : bool :=
  let expiryDate := Date_parse h (expiryTime app) in
  let thirtyDaysLater := JsDate.addDays h now 30 in
  JsDate.lt expiryDate thirtyDaysLater.

Record Stats := mkStats {
  totalApps : nat;
  uniqueAuthorities : nat;
  recentlyCreated : nat;
  soonExpiring : nat
}.

(** [array.filter(callback)] where the callback reads the clock
    ([new Date()]) once per element: the element at index [i] is tested
    at the reading [clock (first + i)]. *)
Definition filterAtClock {A : Type} (test : Z -> A -> bool) (clock : nat -> Z)
    (first : nat) (l : list A) : list A :=
  List.map snd
    (List.filter (fun entry => test (clock (fst entry)) (snd entry))
                 (List.combine (List.seq first (List.length l)) l)).

(** [stats], lines 89-104.  Each callback of the two filters reads the
    clock anew: [clock k] is the [k]-th reading of [new Date()] during
    the render, the callbacks of [recentlyCreated] taking the readings
    [0 .. length - 1] and those of [soonExpiring] the following ones. *)
Definition statsAtClock (h : Host) (clock : nat -> Z) (apps : list ApplicationRecord)
  : Stats :=
  {| totalApps := List.length apps;
     uniqueAuthorities :=
       JsSet.size (JsSet.of_array (List.map (fun app => getAuthority (names app)) apps));
     recentlyCreated :=
       List.length (filterAtClock (isRecentlyCreated h) clock 0 apps);
     soonExpiring :=
       List.length (filterAtClock (isSoonExpiring h) clock (List.length apps) apps) |}.

(** [stats] during a render in which every reading of the clock is [now]
    (the case of [statsAtClock] for a clock that does not advance while
    the statistics are computed). *)
Definition stats (h : Host) (now : Z) (apps : list ApplicationRecord) : Stats :=
  {| totalApps := List.length apps;
     uniqueAuthorities :=
       JsSet.size (JsSet.of_array (List.map (fun app => getAuthority (names app)) apps));
     recentlyCreated := List.length (List.filter (isRecentlyCreated h now) apps);
     soonExpiring := List.length (List.filter (isSoonExpiring h now) apps) |}.

(** The callback of [filter], lines 107-115. *)
Definition matchesSearch (searchTerm : string) (app : ApplicationRecord) : bool :=
  let name := Js.or_else (attributeString "name" app) "" in
  let authority := getAuthority (names app) in
  let owner := hexToBech32 (firstOwner app) in
  let searchLower := Js.toLowerCase searchTerm in
  Js.includes (Js.toLowerCase name) searchLower
  || Js.includes (Js.toLowerCase authority) searchLower
  || Js.includes (Js.toLowerCase owner) searchLower.

(** The comparator of [sort], lines 116-133. *)
Definition compareApps (h : Host) (sortOption : SortOption) (a b : ApplicationRecord)
  : option Z :=
  match sortOption with
  | time => JsDate.sub (Date_parse h (createTime b)) (Date_parse h (createTime a))
  | name =>
      let aName := Js.or_else (attributeString "name" a) "" in
      let bName := Js.or_else (attributeString "name" b) "" in
      Some (localeCompare h aName bName)
  | authority =>
      Some (localeCompare h (getAuthority (names a)) (getAuthority (names b)))
  | owner =>
      Some (localeCompare h (hexToBech32 (firstOwner a)) (hexToBech32 (firstOwner b)))
  end.

(** [filteredAndSortedApps], lines 106-133. *)
Definition filteredAndSortedApps (h : Host) (searchTerm : string)
    (sortOption : SortOption) (apps : list ApplicationRecord)
  : list ApplicationRecord :=
  JsArray.sort (compareApps h sortOption) (List.filter (matchesSearch searchTerm) apps).

(** The filter as the specification words it: the term is matched against
    the display name, the authority and the encoded first owner, an empty
    owner list giving the empty string. *)
Definition matchesSearch_as_specified (searchTerm : string) (app : ApplicationRecord)
  : bool :=
  let owner := match owners app with
               | [] => ""
               | first :: _ => hexToBech32 first
               end in
  let searchLower := Js.toLowerCase searchTerm in
  Js.includes (Js.toLowerCase (displayName app)) searchLower
  || Js.includes (Js.toLowerCase (getAuthority (names app))) searchLower
  || Js.includes (Js.toLowerCase owner) searchLower.

(** The state of the [AppList] component and the console.  [apps] holds
    whatever [setApps] was given. *)
Record ListState := mkListState {
  apps : value;
  isLoading : bool;
  console : list string
}.

Definition initialListState : ListState :=
  {| apps := VArray []; isLoading := true; console := [] |}.

Definition setApps (v : value) : Eff.M ListState unit :=
  Eff.modify (fun st => {| apps := v; isLoading := isLoading st; console := console st |}).

Definition setIsLoading (b : bool) : Eff.M ListState unit :=
  Eff.modify (fun st => {| apps := apps st; isLoading := b; console := console st |}).

Definition console_error (text : string) : Eff.M ListState unit :=
  Eff.modify (fun st => {| apps := apps st; isLoading := isLoading st;
                           console := console st ++ [text] |}).

(** How [axios.post] settles: rejected (transport failure or a status
    outside 2xx), or resolved with [response.data], the parsed body. *)
Inductive AxiosOutcome :=
| AxiosRejected
| AxiosResolved (data : value).

Definition axios_post (o : AxiosOutcome) : Eff.M ListState value :=
  match o with
  | AxiosRejected => Eff.throw "AxiosError"
  | AxiosResolved data => Eff.ret data
  end.

(** [fetchApps], lines 32-65. *)
Definition fetchApps (o : AxiosOutcome) : Eff.M ListState unit :=
  exec setIsLoading true;
  Eff.try_finally
    (Eff.try_catch
       (do response_data <- axios_post o;
        do data <- Eff.eval (JsValue.get response_data "data");
        do records <- Eff.eval (JsValue.get data "appDeploymentRecords");
        setApps records)
       (fun error => console_error "Error: Failed to fetch apps"))
    (setIsLoading false).

(** The recency test as the specification words it: the creation time
    lies strictly within the last 30 days before [now]. *)
Definition isRecentlyCreated_as_specified (h : Host) (now : Z) (app : ApplicationRecord)
  : bool :=
  match Date_parse h (createTime app) with
  | Some created =>
      ((now - 30 * JsDate.msPerDay <? created) && (created <=? now))%Z
  | None => false
  end.

(** A host in the UTC time zone that reads two ISO dates. *)
Definition utcHost : Host :=
  {| Date_parse := fun text =>
       if String.eqb text "2024-01-01T00:00:00Z" then Some 1704067200000%Z
       else if String.eqb text "2024-03-01T00:00:00Z" then Some 1709251200000%Z
       else None;
     LocalTime := fun t => t;
     UTC := fun t => t;
     localeCompare := fun a b =>
       match String.compare a b with Lt => (-1)%Z | Eq => 0%Z | Gt => 1%Z end |}.

(** 2024-01-31T00:00:00Z, thirty days after the first date [utcHost] reads
    and thirty days before the second. *)
Definition sampleNow : Z := 1706659200000%Z.

(** A record dated a month after [sampleNow]. *)
Definition futureRecord : ApplicationRecord :=
  {| id := "bafy-2"; bondId := "bond-1";
     createTime := "2024-03-01T00:00:00Z"; expiryTime := "2025-01-01T00:00:00Z";
     names := ["lrn://laconic/apps/demo"]; owners := []; attributes := [] |}.

(** A response with a GraphQL error entry and a nulled field. *)
Definition errorPayload : value :=
  VObject [("errors", VArray [VObject [("message", VString "resolver failed")]]);
           ("data", VObject [("appDeploymentRecords", VNull)])].

(** Hexadecimal addresses of 47 and of 48 bytes. *)
Definition zeros (n : nat) : string := Nat.iter n (String.append "00") "".

(** A record without names, owners and attributes. *)
Definition bareRecord : ApplicationRecord :=
  {| id := "bafy-1"; bondId := "bond-1";
     createTime := "2024-01-01T00:00:00Z"; expiryTime := "2025-01-01T00:00:00Z";
     names := []; owners := []; attributes := [] |}.

End Applist.


(* ===================================================================== *)
(** ** The reachability endpoint, [src/app/api/check-url/route.ts]        *)
(* ===================================================================== *)

Module CheckUrlRoute.

(** How the [HEAD] request of [fetch(url, { method: 'HEAD' })] settles:
    rejected (transport failure, malformed URL), or a response whose [ok]
    flag tells a success status. *)
Inductive HeadOutcome :=
| HeadRejected
| HeadResponse (ok : bool).

(** [NextResponse.json(body, { status })]; the status defaults to 200. *)
Record NextResponse := mkNextResponse {
  status : Z;
  body : value
}.

Definition json (body : value) (status : option Z) : NextResponse :=
  {| status := default 200%Z status; body := body |}.

Definition fetch_head (network : string -> HeadOutcome) (url : string)
  : Eff.M (list string) bool :=
  match network url with
  | HeadRejected => Eff.throw "TypeError: fetch failed"
  | HeadResponse ok => Eff.ret ok
  end.

Definition console_error (text : string) : Eff.M (list string) unit :=
  Eff.modify (fun console => console ++ [text]).

(** [GET], lines 3-17.  [url] is [searchParams.get('url')]: [None] when
    the query has no [url] parameter, its value otherwise; [!url] holds
    for [None] and for the empty string.  The state is the console. *)
Definition GET (network : string -> HeadOutcome) (url : option string)
  : Eff.M (list string) NextResponse :=
  match url with
  | Some target =>
      if Js.truthy target then
        Eff.try_catch
          (do ok <- fetch_head network target;
           Eff.ret (json (VObject [("isAvailable", VBool ok)]) None))
          (fun error =>
             exec console_error "Error checking URL:";
             Eff.ret (json (VObject [("isAvailable", VBool false)]) None))
      else
        Eff.ret (json (VObject [("error", VString "URL parameter is required")])
                      (Some 400%Z))
  | None =>
      Eff.ret (json (VObject [("error", VString "URL parameter is required")])
                    (Some 400%Z))
  end.

(** The endpoint as the specification words it: 400 when the parameter is
    missing, otherwise a success response with [isAvailable]. *)
Definition GET_as_specified (network : string -> HeadOutcome) (url : option string)
  : NextResponse :=
  match url with
  | None => json (VObject [("error", VString "URL parameter is required")]) (Some 400%Z)
  | Some target =>
      json (VObject [("isAvailable",
                      VBool match network target with
                            | HeadResponse ok => ok
                            | HeadRejected => false
                            end)]) None
  end.

End CheckUrlRoute.

(* ===================================================================== *)
(** ** The detail page: deployments and their URL probes                  *)
(* ===================================================================== *)

Module AppPage.

Record Attribute := mkAttribute {
  key : string;
  value_string : option string
}.

Record DeploymentRecord := mkDeploymentRecord {
  id : string;
  names : list string;
  attributes : list Attribute
}.

(** The state of [AppDeploymentPage] and the console. *)
Record PageState := mkPageState {
  deployments : value;
  isLoading : bool;
  console : list string
}.

Definition initialPageState : PageState :=
  {| deployments := VArray []; isLoading := true; console := [] |}.

Definition setDeployments (v : value) : Eff.M PageState unit :=
  Eff.modify (fun st => {| deployments := v; isLoading := isLoading st;
                           console := console st |}).

Definition setIsLoading (b : bool) : Eff.M PageState unit :=
  Eff.modify (fun st => {| deployments := deployments st; isLoading := b;
                           console := console st |}).

Definition console_error (text : string) : Eff.M PageState unit :=
  Eff.modify (fun st => {| deployments := deployments st; isLoading := isLoading st;
                           console := console st ++ [text] |}).

(** How [fetch] followed by [response.json()] settles: the request is
    rejected, the body is not JSON, or the parsed body. *)
Inductive FetchOutcome :=
| FetchRejected
| JsonRejected
| JsonResolved (data : value).

Definition fetch_json {S} (o : FetchOutcome) : Eff.M S value :=
  match o with
  | FetchRejected => Eff.throw "TypeError: Failed to fetch"
  | JsonRejected => Eff.throw "SyntaxError"
  | JsonResolved data => Eff.ret data
  end.

(** [fetchDeployments], lines 67-135. *)
Definition fetchDeployments (o : FetchOutcome) : Eff.M PageState unit :=
  Eff.try_finally
    (Eff.try_catch
       (do data <- fetch_json o;
        do errors <- Eff.eval (JsValue.get data "errors");
        exec (if JsValue.truthy errors
              then exec console_error "GraphQL Errors:";
                   Eff.throw "Failed to fetch deployment records"
              else Eff.ret tt);
        do inner <- Eff.eval (JsValue.get data "data");
        do records <- Eff.eval (JsValue.get inner "appDeploymentRecords");
        setDeployments records)
       (fun error => console_error "Error fetching deployments:"))
    (setIsLoading false).

Inductive UrlStatus := checking | available | unavailable.

(** The state of one [UrlList]: the status map, and for the record its
    successive values (one per update that React applied) and the URLs
    for which a probe was sent, oldest first.  [unmounted] is set once an
    updater has thrown while React rendered its update: the component is
    then taken off the page. *)
Record UrlListState := mkUrlListState {
  urlStatuses : gmap string UrlStatus;
  updates : list (gmap string UrlStatus);
  requests : list string;
  unmounted : bool
}.

Definition initialUrlListState : UrlListState :=
  {| urlStatuses := ∅; updates := []; requests := []; unmounted := false |}.

(** [setUrlStatuses(updater)].  The call only queues the update and
    returns; React runs [updater] on the current map when it renders.  An
    error thrown by [updater] is therefore thrown by that render and not
    at the call: the caller does not see it, no entry is written, and the
    component is unmounted.  An update of an unmounted component has no
    effect. *)
Definition setUrlStatuses
    (updater : gmap string UrlStatus -> completion (gmap string UrlStatus))
  : Eff.M UrlListState unit :=
  Eff.modify (fun st =>
    if unmounted st then st
    else match updater (urlStatuses st) with
         | Normal next =>
             {| urlStatuses := next; updates := updates st ++ [next];
                requests := requests st; unmounted := false |}
         | Throws _ =>
             {| urlStatuses := urlStatuses st; updates := updates st;
                requests := requests st; unmounted := true |}
         end).

(** [fetch(`/api/check-url?url=...`)] then [response.json()]; [answer] is
    how this request settles. *)
Definition probe (answer : FetchOutcome) (url : string) : Eff.M UrlListState value :=
  exec Eff.modify (fun st =>
         {| urlStatuses := urlStatuses st; updates := updates st;
            requests := requests st ++ [url]; unmounted := unmounted st |});
  fetch_json answer.

(** [urlAttribute], lines 209 and 237. *)
Definition urlAttribute (deployment : DeploymentRecord) : option Attribute :=
  List.find (fun attr => String.eqb (key attr) "url") (attributes deployment).

(** The body of the [for] loop, lines 217-229, for the [i]-th URL.  The
    [try] block holds the two awaited calls and the call of
    [setUrlStatuses]; [data.isAvailable] is read inside the updater
    (lines 220-223), that is when React renders, outside the [try]: a
    rejection of [fetch] or of [response.json()] reaches the [catch]
    clause, a [TypeError] of [data.isAvailable] (for [null]) does not. *)
Definition checkUrl (server : nat -> string -> FetchOutcome) (i : nat) (url : string)
  : Eff.M UrlListState unit :=
  Eff.try_catch
    (do data <- probe (server i url) url;
     setUrlStatuses (fun prev =>
       match JsValue.get data "isAvailable" with
       | Normal isAvailable =>
           Normal (<[url := if JsValue.truthy isAvailable
                            then available else unavailable]> prev)
       | Throws msg => Throws msg
       end))
    (fun _ => setUrlStatuses (fun prev => Normal (<[url := unavailable]> prev))).

(** [for (const url of urls)], one probe after the other. *)
Fixpoint checkEach (server : nat -> string -> FetchOutcome) (i : nat) (urls : list string)
  : Eff.M UrlListState unit :=
  match urls with
  | [] => Eff.ret tt
  | url :: rest => exec checkUrl server i url; checkEach server (S i) rest
  end.

(** [Object.fromEntries(urls.map(url => [url, 'checking']))] *)
Definition initialStatuses (urls : list string) : gmap string UrlStatus :=
  fold_left (fun statuses url => <[url := checking]> statuses) urls ∅.

(** [checkUrls], lines 208-232; [server i url] is how the [i]-th probe,
    sent for [url], settles. *)
Definition checkUrls (server : nat -> string -> FetchOutcome)
    (deployment : DeploymentRecord) : Eff.M UrlListState unit :=
  match urlAttribute deployment with
  | Some attr =>
      match value_string attr with
      | Some text =>
          if Js.truthy text then
            let urls := Js.split "," text in
            exec setUrlStatuses (fun _ => Normal (initialStatuses urls));
            checkEach server 0 urls
          else Eff.ret tt
      | None => Eff.ret tt
      end
  | None => Eff.ret tt
  end.

(** What [UrlList] renders, lines 237-266. *)
Inductive Indicator := Spinner | Green | Red.

Inductive UrlListView :=
| NoUrlsAvailable
| UrlItems (items : list (Indicator * string)).

Definition indicator (statuses : gmap string UrlStatus) (url : string) : Indicator :=
  match statuses !! url with
  | Some checking => Spinner
  | Some available => Green
  | _ => Red
  end.

Definition UrlList (deployment : DeploymentRecord) (statuses : gmap string UrlStatus)
  : UrlListView :=
  match urlAttribute deployment with
  | Some attr =>
      match value_string attr with
      | Some text =>
          if Js.truthy text then
            UrlItems (List.map (fun url => (indicator statuses url, url))
                               (Js.split "," text))
          else NoUrlsAvailable
      | None => NoUrlsAvailable
      end
  | None => NoUrlsAvailable
  end.

(** A probe answered by the endpoint of this application: the body of the
    response of [CheckUrlRoute.GET] for the decoded [url] parameter. *)
Definition served (network : string -> CheckUrlRoute.HeadOutcome) (i : nat) (url : string)
  : FetchOutcome :=
  match CheckUrlRoute.GET network (Some url) [] with
  | (_, Normal response) => JsonResolved (CheckUrlRoute.body response)
  | (_, Throws _) => FetchRejected
  end.

Definition terminal (s : UrlStatus) : bool :=
  match s with
  | checking => false
  | available | unavailable => true
  end.

(** Sample deployments: two URLs, no "url" attribute, an empty "url"
    attribute, and a URL list with an empty segment. *)
Definition twoUrlDeployment : DeploymentRecord :=
  {| id := "bafy-d1"; names := ["lrn://laconic/deployments/demo"];
     attributes := [ {| key := "name"; value_string := Some "demo" |};
                     {| key := "url"; value_string := Some "http://a,http://b" |} ] |}.

Definition noUrlDeployment : DeploymentRecord :=
  {| id := "bafy-d2"; names := []; attributes := [ {| key := "name"; value_string := Some "demo" |} ] |}.

Definition emptyUrlDeployment : DeploymentRecord :=
  {| id := "bafy-d3"; names := []; attributes := [ {| key := "url"; value_string := Some "" |} ] |}.

Definition gapUrlDeployment : DeploymentRecord :=
  {| id := "bafy-d4"; names := [];
     attributes := [ {| key := "url"; value_string := Some "http://a,,http://b" |} ] |}.

(** A network on which only [http://a] answers, with a success status. *)
Definition sampleNetwork (url : string) : CheckUrlRoute.HeadOutcome :=
  if String.eqb url "http://a" then CheckUrlRoute.HeadResponse true
  else CheckUrlRoute.HeadRejected.

(** Every parsed body a server answers with has a readable
    [isAvailable]: it is not [null] (and not [undefined], which no JSON
    text gives). *)
Definition answersReadable (server : nat -> string -> FetchOutcome) : Prop :=
  forall i url data,
    server i url = JsonResolved data ->
    exists isAvailable, JsValue.get data "isAvailable" = Normal isAvailable.

(** A server other than the endpoint of this application, whose body for
    [http://a] is the JSON text [null]; for any other URL it answers as
    the endpoint does on [sampleNetwork]. *)
Definition nullServer (i : nat) (url : string) : FetchOutcome :=
  if String.eqb url "http://a" then JsonResolved VNull
  else served sampleNetwork i url.

End AppPage.

(* ===================================================================== *)
(** ** What the two views render, and the link between them               *)
(* ===================================================================== *)

Module JsArrayOrder.

(** [a] may stand before [b] under a comparator: [sort] does not read the
    result of comparing them as "[a] after [b]". *)
Definition may_precede {A : Type} (compareFn : A -> A -> option Z) (a b : A) : Prop :=
  JsArray.after compareFn a b = false.

End JsArrayOrder.

Module JsText.

(** [array.join(sep)] on an array of strings. *)
Fixpoint join (sep : string) (l : list string) : string :=
  match l with
  | [] => ""
  | [x] => x
  | x :: rest => x +:+ sep +:+ join sep rest
  end.

End JsText.

Module ApplistView.

Import Applist.

(** The version shown on a card, line 201. *)
Definition displayVersion (app : ApplicationRecord) : string :=
  Js.or_else (attributeString "app_version" app) "Unknown".

(** The owner line of a card, line 205:
    [app.owners.map(hexToBech32).join(', ')]. *)
Definition ownersDisplay (app : ApplicationRecord) : string :=
  JsText.join ", " (List.map hexToBech32 (owners app)).

(** The [query] of the "View Details" link, lines 210-217, in the order
    of the object literal. *)
Definition linkQuery (app : ApplicationRecord) : list (string * string) :=
  [ ("name", displayName app);
    ("version", displayVersion app);
    ("authority", getAuthority (names app));
    ("created", createTime app);
    ("expires", expiryTime app);
    ("owner", hexToBech32 (firstOwner app)) ].

(** The text that [localeCompare] is given for a record under the sort
    options "name", "authority" and "owner", lines 120-129. *)
Definition sortText (sortOption : SortOption) (app : ApplicationRecord) : string :=
  match sortOption with
  | name => Js.or_else (attributeString "name" app) ""
  | authority => getAuthority (names app)
  | owner => hexToBech32 (firstOwner app)
  | time => createTime app
  end.

End ApplistView.

Module AppPageView.

(** [appInfo], lines 34-42. *)
Record AppInfo := mkAppInfo {
  name : string;
  version : string;
  authority : string;
  created : string;
  expires : string;
  owner : string;
  repository : string
}.

(** [searchParams.get] for a URL whose query was built from the pairs
    [query]: the value of the first pair with the key, [None] (null) when
    there is none. *)
Definition searchParamsOf (query : list (string * string)) (k : string) : option string :=
  match List.find (fun entry => String.eqb (fst entry) k) query with
  | Some entry => Some (snd entry)
  | None => None
  end.

(** The value passed to [setAppInfo], lines 49-65.  [get] is
    [searchParams.get]; [toLocaleString] is [Date.prototype.toLocaleString]
    of the host, on a time value. *)
Definition appInfoOf (h : Host) (toLocaleString : option Z -> string)
    (get : string -> option string) : AppInfo :=
  let name := Js.or_else (get "name") "Unnamed App" in
  let version := Js.or_else (get "version") "Unknown" in
  let authority := Js.or_else (get "authority") "Unknown" in
  let created := Js.or_else (get "created") "Invalid Date" in
  let expires := Js.or_else (get "expires") "Invalid Date" in
  let owner := Js.or_else (get "owner") "" in
  let repository := Js.or_else (get "repository") "Unknown" in
  {| name := name;
     version := version;
     authority := authority;
     created := toLocaleString (Date_parse h created);
     expires := toLocaleString (Date_parse h expires);
     owner := owner;
     repository := repository |}.

(** The repository cell, lines 169-173: a link when [appInfo.repository]
    is truthy, the "Unknown" item otherwise. *)
Inductive RepositoryCell :=
| InfoLink (label href : string)
| RepositoryUnknown.

Definition repositoryCell (info : AppInfo) : RepositoryCell :=
  if Js.truthy (repository info)
  then InfoLink (repository info) (repository info)
  else RepositoryUnknown.

End AppPageView.

Module CodecView.

Local Open Scope Z_scope.

(** The number that a sequence of digits writes in a base, the first
    digit the most significant. *)
Definition number (base : Z) (digits : list Z) : Z :=
  fold_left (fun acc digit => acc * base + digit) digits 0.

(** The data characters of an encoding: one character of the alphabet per
    word. *)
Fixpoint dataPart (words : list Z) : string :=
  match words with
  | [] => ""
  | w :: rest => Bech32.charAt Bech32.ALPHABET w +:+ dataPart rest
  end.

(** Whether no two of the first [n] positions of a text hold the same
    character. *)
Definition distinctUpTo (text : string) (n : nat) : bool :=
  forallb (fun i =>
    forallb (fun j =>
      (i =? j)%nat
      || negb (bool_decide (String.get i text = String.get j text)))
      (seq 0 n))
    (seq 0 n).

End CodecView.

Module ProberView.


End ProberView.

(** Sample records for the list view. *)
Module Samples.

Definition consoleRecord : Applist.ApplicationRecord :=
  {| Applist.id := "bafy-3"; Applist.bondId := "bond-2";
     Applist.createTime := "2024-03-01T00:00:00Z";
     Applist.expiryTime := "2025-03-01T00:00:00Z";
     Applist.names := ["lrn://laconic/applications/console"];
     Applist.owners := ["751e76e8199196d454941c45d1b3a323f1433bd6"];
     Applist.attributes :=
       [ {| Applist.key := "type"; Applist.value_string := Some "ApplicationRecord" |};
         {| Applist.key := "name"; Applist.value_string := Some "Laconic Console" |};
         {| Applist.key := "app_version"; Applist.value_string := Some "0.1.0" |} ] |}.

Definition walletRecord : Applist.ApplicationRecord :=
  {| Applist.id := "bafy-4"; Applist.bondId := "bond-2";
     Applist.createTime := "2024-01-01T00:00:00Z";
     Applist.expiryTime := "2025-01-01T00:00:00Z";
     Applist.names := ["wallet"; "lrn://cerc-io/applications/wallet"];
     Applist.owners := ["751e76e8199196d454941c45d1b3a323f1433bd6"; "00ff"];
     Applist.attributes :=
       [ {| Applist.key := "name"; Applist.value_string := Some "Wallet" |} ] |}.

End Samples.

(* ===================================================================== *)
(** ** Properties of the string operations                                *)
(* ===================================================================== *)

Section StringFacts.

Lemma split_not_nil sep s : Js.split sep s <> [].
Proof.
  destruct s as [|c s]; simpl; [discriminate|].
  destruct (Ascii.eqb c sep); [discriminate|].
  destruct (Js.split sep s); discriminate.
Qed.

Lemma prefix_inv p s :
  String.prefix p s = true -> exists rest, s = p +:+ rest.
Proof.
  revert s. induction p as [|a p IH]; intros s H.
  - exists s. reflexivity.
  - destruct s as [|b s]; simpl in H; [discriminate|].
    destruct (Ascii.ascii_dec a b) as [->|]; [|discriminate].
    destruct (IH _ H) as [rest ->]. exists rest. reflexivity.
Qed.

Lemma prefix_empty s : String.prefix "" s = true.
Proof. destruct s; reflexivity. Qed.

Lemma includes_empty s : Js.includes s "" = true.
Proof. destruct s; reflexivity. Qed.

(** The first segment of a split: the text before the first separator. *)
Lemma split_head sep s :
  exists segment tail segments,
    Js.split sep s = segment :: segments /\
    s = segment +:+ tail /\
    Js.includes segment (String sep "") = false /\
    (tail = "" \/ exists t, tail = String sep t).
Proof.
  induction s as [|c s IH].
  - exists "", "", []. repeat split; auto.
  - simpl. destruct (Ascii.eqb_spec c sep) as [->|Hne].
    + exists "", (String sep s), (Js.split sep s). repeat split; eauto.
    + destruct IH as (seg & tail & segs & Hs & Heq & Hno & Htail).
      rewrite Hs. exists (String c seg), tail, segs.
      repeat split; auto.
      * simpl. rewrite Heq. reflexivity.
      * simpl. destruct (Ascii.ascii_dec sep c) as [E|_]; [congruence|].
        exact Hno.
Qed.

Lemma split_lrn rest :
  Js.split "/" ("lrn://" +:+ rest) = "lrn:" :: "" :: Js.split "/" rest.
Proof. reflexivity. Qed.

Lemma prefix_app t post : String.prefix t (t +:+ post) = true.
Proof.
  induction t as [|a t IH]; simpl; [apply prefix_empty|].
  destruct (Ascii.ascii_dec a a); [exact IH|congruence].
Qed.

(** [includes] finds exactly the substrings. *)
Lemma includes_spec s t :
  Js.includes s t = true <-> exists pre post, s = pre +:+ t +:+ post.
Proof.
  induction s as [|c s IH].
  - split.
    + destruct t as [|a t]; [|discriminate]. intros _. exists "", "". reflexivity.
    + intros (pre & post & E).
      destruct pre; [|discriminate]. destruct t; [reflexivity|discriminate].
  - cbn [Js.includes]. split.
    + destruct (String.prefix t (String c s)) eqn:E.
      * intros _. apply prefix_inv in E as [rest E]. exists "", rest. exact E.
      * intros H. apply IH in H as (pre & post & ->).
        exists (String c pre), post. reflexivity.
    + intros (pre & post & E). destruct pre as [|c' pre].
      * change (String c s = t +:+ post) in E.
        rewrite E, prefix_app. reflexivity.
      * change (String c s = String c' (pre +:+ t +:+ post)) in E.
        injection E as -> ->.
        destruct (String.prefix _ _); [reflexivity|].
        apply IH. eauto.
Qed.

End StringFacts.

(* ===================================================================== *)
(** ** Authority derivation                                               *)
(* ===================================================================== *)

(** C1 (as amended).  [getAuthority ["lrn://foo/bar/baz"]] is "foo" and
    [getAuthority ["nope"]] is "Unknown".  In general the first name with
    the prefix [lrn://] is split on [/]; such a name always has a segment
    at index 2, the text between the prefix and the next [/], and that
    segment is returned unless it is empty; "Unknown" is returned when no
    name has the prefix or when the segment is empty. *)
Theorem getAuthority_first_lrn_segment :
  Applist.getAuthority ["lrn://foo/bar/baz"] = "foo" /\
  Applist.getAuthority ["nope"] = "Unknown" /\
  forall names : list string,
    match List.find (fun n => Js.startsWith n "lrn://") names with
    | None => Applist.getAuthority names = "Unknown"
    | Some lrnName =>
        exists segment tail,
          lrnName = "lrn://" +:+ segment +:+ tail /\
          Js.includes segment "/" = false /\
          (tail = "" \/ exists t, tail = String "/" t) /\
          nth_error (Js.split "/" lrnName) 2 = Some segment /\
          Applist.getAuthority names =
            if String.eqb segment "" then "Unknown" else segment
    end.
Proof.
  split; [reflexivity|]. split; [reflexivity|].
  intros names. unfold Applist.getAuthority.
  destruct (List.find _ names) as [lrnName|] eqn:Hfind; [|reflexivity].
  apply List.find_some in Hfind as [_ Hpre].
  apply prefix_inv in Hpre as [rest ->].
  destruct (split_head "/" rest) as (seg & tail & segs & Hs & -> & Hno & Htail).
  exists seg, tail. rewrite split_lrn, Hs.
  repeat split; auto.
  cbn. unfold Js.truthy.
  destruct (String.eqb seg ""); reflexivity.
Qed.

(** C1, counterexample.  On ["lrn://foo/bar/baz"] the code returns "foo",
    not "bar"; and on ["lrn://"], whose split has three segments with an
    empty one at index 2, the code returns "Unknown" and not that segment. *)
Lemma getAuthority_not_bar :
  Applist.getAuthority ["lrn://foo/bar/baz"] = "foo" /\
  "foo" <> "bar" /\
  nth_error (Js.split "/" "lrn://") 2 = Some "" /\
  Applist.authority_as_specified ["lrn://"] = "" /\
  Applist.getAuthority ["lrn://"] = "Unknown".
Proof. repeat split; try reflexivity. discriminate. Qed.

(* ===================================================================== *)
(** ** Address codec                                                      *)
(* ===================================================================== *)

(** Whatever does not start with a pair of hexadecimal digits decodes to
    no byte at all, and the encoding of no byte is returned. *)
Lemma hexToBech32_nothing_decoded hexAddress :
  Buffer.from_hex hexAddress = [] ->
  Applist.hexToBech32 hexAddress = "laconic16d9tz8".
Proof. intros H. unfold Applist.hexToBech32. rewrite H. reflexivity. Qed.

(** C2, at the input "zz".  The string is not hexadecimal, yet the codec
    does not return it: [Buffer.from] decodes it to the empty byte
    sequence without an exception, and the encoding of that sequence,
    "laconic16d9tz8", is returned. *)
Theorem hexToBech32_non_hex_is_encoded :
  Buffer.isHex "zz" = false /\
  Buffer.from_hex "zz" = [] /\
  Applist.hexToBech32 "zz" = "laconic16d9tz8".
Proof. repeat split; reflexivity. Qed.

(** A 20-byte address is encoded. *)
Example hexToBech32_address :
  Applist.hexToBech32 "751e76e8199196d454941c45d1b3a323f1433bd6"
  = "laconic1w508d6qejxtdg4y5r3zarvary0c5xw7klp06c2".
Proof. reflexivity. Qed.

(** The [catch] branch is reached through the length limit of [encode]:
    47 bytes are encoded, 48 bytes make 77 words, [encode] throws, and
    the argument is returned. *)
Example hexToBech32_length_limit :
  List.length (Bech32.toWords (Buffer.from_hex (Applist.zeros 47))) = 76 /\
  String.prefix "laconic1" (Applist.hexToBech32 (Applist.zeros 47)) = true /\
  Bech32.encode "laconic" (Bech32.toWords (Buffer.from_hex (Applist.zeros 48)))
    = Throws "Exceeds length limit" /\
  Applist.hexToBech32 (Applist.zeros 48) = Applist.zeros 48.
Proof. repeat split; vm_compute; reflexivity. Qed.

(* ===================================================================== *)
(** ** Search filter                                                      *)
(* ===================================================================== *)

(** C3 (as amended).  A record passes the filter iff the lower-cased
    search term is a substring of the lower-cased value of one of three
    fields: the "name" attribute (the empty string when absent), the
    derived authority, and [hexToBech32] of the first owner.  A record
    with no owner has the owner field [hexToBech32 ""], which is
    "laconic16d9tz8". *)
Theorem matchesSearch_fields (searchTerm : string) (app : Applist.ApplicationRecord) :
  let name := Js.or_else (Applist.attributeString "name" app) "" in
  let authority := Applist.getAuthority (Applist.names app) in
  let owner := Applist.hexToBech32 (Applist.firstOwner app) in
  (Applist.matchesSearch searchTerm app = true <->
     exists field, In field [name; authority; owner] /\
       exists pre post,
         Js.toLowerCase field = pre +:+ Js.toLowerCase searchTerm +:+ post) /\
  match Applist.owners app with
  | [] => owner = "laconic16d9tz8"
  | first :: _ => owner = Applist.hexToBech32 first
  end.
Proof.
  cbv zeta. split.
  - unfold Applist.matchesSearch.
    rewrite !orb_true_iff, !includes_spec. split.
    + intros [[H|H]|H]; eexists; (split; [|exact H]); simpl; auto.
    + intros (field & Hin & H). simpl in Hin.
      destruct Hin as [<-|[<-|[<-|[]]]]; auto.
  - unfold Applist.firstOwner. destruct (Applist.owners app) as [|first rest].
    + reflexivity.
    + simpl. unfold Js.truthy.
      destruct (String.eqb_spec first "") as [->|]; reflexivity.
Qed.

(** C3, counterexample.  A record without owners, name and names passes
    the filter for the term "laconic": its owner field is not empty.  As
    the claim has it the owner field would be empty and the record would
    not pass. *)
Lemma matchesSearch_ownerless_laconic :
  Applist.owners Applist.bareRecord = [] /\
  Applist.hexToBech32 (Applist.firstOwner Applist.bareRecord) = "laconic16d9tz8" /\
  Applist.matchesSearch "laconic" Applist.bareRecord = true /\
  Applist.matchesSearch_as_specified "laconic" Applist.bareRecord = false.
Proof. repeat split; reflexivity. Qed.

(** The name that is searched is not the name that is displayed: a record
    without "name" attribute is shown as "Unnamed App" and is not found
    under that name. *)
Lemma matchesSearch_unnamed :
  Applist.displayName Applist.bareRecord = "Unnamed App" /\
  Applist.matchesSearch "unnamed" Applist.bareRecord = false.
Proof. split; reflexivity. Qed.

Section SortFacts.
Context {A : Type} (compareFn : A -> A -> option Z).

Lemma insert_perm x l : Permutation (JsArray.insert compareFn x l) (x :: l).
Proof.
  induction l as [|y l IH]; simpl; [reflexivity|].
  destruct (JsArray.after compareFn x y); [|reflexivity].
  rewrite IH. apply perm_swap.
Qed.

Lemma sort_perm l : Permutation (JsArray.sort compareFn l) l.
Proof.
  induction l as [|x l IH]; simpl; [reflexivity|].
  rewrite insert_perm. constructor. exact IH.
Qed.
End SortFacts.

(** C9.  With the empty search term every record passes the filter, the
    filter returns the record list itself, and the filtered and sorted
    list is a permutation of the record list, for every sort key. *)
Theorem empty_search_keeps_every_record
    (h : Host) (sortOption : Applist.SortOption) (apps : list Applist.ApplicationRecord) :
  (forall app, Applist.matchesSearch "" app = true) /\
  List.filter (Applist.matchesSearch "") apps = apps /\
  Permutation (Applist.filteredAndSortedApps h "" sortOption apps) apps.
Proof.
  assert (Hall : forall app, Applist.matchesSearch "" app = true).
  { intros app. unfold Applist.matchesSearch. simpl.
    rewrite includes_empty. reflexivity. }
  assert (Hid : List.filter (Applist.matchesSearch "") apps = apps).
  { induction apps as [|a l IH]; simpl; [reflexivity|].
    rewrite Hall. f_equal. exact IH. }
  repeat split; auto.
  unfold Applist.filteredAndSortedApps. rewrite Hid. apply sort_perm.
Qed.

(* ===================================================================== *)
(** ** Statistics                                                         *)
(* ===================================================================== *)

Section SetFacts.

Lemma add_spec (s : list string) (x y : string) :
  y ∈ JsSet.add s x <-> y ∈ s \/ y = x.
Proof.
  unfold JsSet.add. case_bool_decide as Hin.
  - split; [auto|]. intros [?| ->]; assumption.
  - rewrite elem_of_app, list_elem_of_singleton. reflexivity.
Qed.

Lemma add_NoDup (s : list string) (x : string) : NoDup s -> NoDup (JsSet.add s x).
Proof.
  intros Hs. unfold JsSet.add. case_bool_decide as Hin; [exact Hs|].
  apply NoDup_app. split; [exact Hs|]. split.
  - intros y Hy Hyx. apply list_elem_of_singleton in Hyx as ->. contradiction.
  - apply NoDup_singleton.
Qed.

Lemma fold_add_spec (l acc : list string) :
  NoDup acc ->
  NoDup (fold_left JsSet.add l acc) /\
  forall y, y ∈ fold_left JsSet.add l acc <-> y ∈ acc \/ y ∈ l.
Proof.
  revert acc. induction l as [|x l IH]; intros acc Hacc; simpl.
  - split; [exact Hacc|]. intros y. rewrite elem_of_nil. tauto.
  - destruct (IH (JsSet.add acc x) (add_NoDup _ _ Hacc)) as [Hnd Hin].
    split; [exact Hnd|]. intros y.
    rewrite Hin, add_spec, elem_of_cons. tauto.
Qed.

(** [new Set(l)] holds each value of [l] once. *)
Lemma of_array_spec (l : list string) :
  NoDup (JsSet.of_array l) /\ forall y, y ∈ JsSet.of_array l <-> y ∈ l.
Proof.
  destruct (fold_add_spec l [] NoDup_nil_2) as [Hnd Hin].
  split; [exact Hnd|]. intros y. unfold JsSet.of_array.
  rewrite Hin, elem_of_nil. tauto.
Qed.

Lemma of_array_size (l : list string) :
  JsSet.size (JsSet.of_array l) = size (list_to_set l : gset string).
Proof.
  destruct (of_array_spec l) as [Hnd Hin].
  unfold JsSet.size.
  rewrite <- (size_list_to_set (C:=gset string) _ Hnd).
  f_equal. apply set_eq. intros y.
  rewrite !elem_of_list_to_set. apply Hin.
Qed.

End SetFacts.

(** C5.  [totalApps] is the number of records, and [uniqueAuthorities] is
    the number of distinct values of [getAuthority] over the records, the
    cardinality of the set of these values; when the records are not
    empty and each of them derives "Unknown", that number is 1. *)
Theorem stats_counts (h : Host) (now : Z) (apps : list Applist.ApplicationRecord) :
  let authorities := List.map (fun app => Applist.getAuthority (Applist.names app)) apps in
  Applist.totalApps (Applist.stats h now apps) = List.length apps /\
  Applist.uniqueAuthorities (Applist.stats h now apps)
    = size (list_to_set authorities : gset string) /\
  (apps <> [] ->
   (forall app, app ∈ apps -> Applist.getAuthority (Applist.names app) = "Unknown") ->
   Applist.uniqueAuthorities (Applist.stats h now apps) = 1).
Proof.
  cbv zeta. split; [reflexivity|]. split.
  - apply of_array_size.
  - intros Hne Hall. cbn [Applist.stats Applist.uniqueAuthorities].
    rewrite of_array_size.
    replace (list_to_set _ : gset string) with ({["Unknown"]} : gset string).
    + apply size_singleton.
    + apply set_eq. intros y.
      rewrite elem_of_singleton, elem_of_list_to_set, list_elem_of_fmap. split.
      * intros ->. destruct apps as [|a l]; [congruence|].
        exists a. split; [symmetry; apply Hall|]; left.
      * intros (app & -> & Hin). apply Hall, Hin.
Qed.

Section DateFacts.
Local Open Scope Z_scope.

Lemma gt_spec (a b : option Z) :
  JsDate.gt a b = true <-> exists x y, a = Some x /\ b = Some y /\ y < x.
Proof.
  unfold JsDate.gt. destruct a as [x|], b as [y|]; split;
    try discriminate; try (intros (? & ? & ? & ? & ?); discriminate).
  - intros H. exists x, y. repeat split. lia.
  - intros (x' & y' & [= <-] & [= <-] & H). lia.
Qed.

Lemma lt_spec (a b : option Z) :
  JsDate.lt a b = true <-> exists x y, a = Some x /\ b = Some y /\ x < y.
Proof.
  unfold JsDate.lt. destruct a as [x|], b as [y|]; split;
    try discriminate; try (intros (? & ? & ? & ? & ?); discriminate).
  - intros H. exists x, y. repeat split. lia.
  - intros (x' & y' & [= <-] & [= <-] & H). lia.
Qed.

Lemma gt_irrefl (a : option Z) : JsDate.gt a a = false.
Proof. destruct a; simpl; [lia|reflexivity]. Qed.

Lemma lt_irrefl (a : option Z) : JsDate.lt a a = false.
Proof. destruct a; simpl; [lia|reflexivity]. Qed.
End DateFacts.

(** C6 (as amended).  A record is counted in [recentlyCreated] iff its
    creation time is a valid instant strictly later than the boundary,
    the instant thirty days before [now] (thirty days of local time; in a
    zone with a fixed offset, [now] minus 30 * 86400000 ms); no upper
    limit is tested.  A record created exactly at the boundary is not
    counted.  [soonExpiring] counts the records whose expiry time is a
    valid instant strictly earlier than the instant thirty days after
    [now], the boundary again excluded. *)
Theorem recentlyCreated_strictly_after_boundary
    (h : Host) (now : Z) (app : Applist.ApplicationRecord) :
  (Applist.isRecentlyCreated h now app = true <->
     exists created boundary,
       Date_parse h (Applist.createTime app) = Some created /\
       JsDate.addDays h now (-30) = Some boundary /\
       (boundary < created)%Z) /\
  (Applist.isSoonExpiring h now app = true <->
     exists expiry boundary,
       Date_parse h (Applist.expiryTime app) = Some expiry /\
       JsDate.addDays h now 30 = Some boundary /\
       (expiry < boundary)%Z) /\
  (Date_parse h (Applist.createTime app) = JsDate.addDays h now (-30) ->
     Applist.isRecentlyCreated h now app = false) /\
  (Date_parse h (Applist.expiryTime app) = JsDate.addDays h now 30 ->
     Applist.isSoonExpiring h now app = false) /\
  ((exists offset, forall t, LocalTime h t = (t + offset)%Z /\ UTC h t = (t - offset)%Z) ->
     JsDate.addDays h now (-30) = JsDate.TimeClip (now - 30 * 86400000)%Z /\
     JsDate.addDays h now 30 = JsDate.TimeClip (now + 30 * 86400000)%Z).
Proof.
  unfold Applist.isRecentlyCreated, Applist.isSoonExpiring.
  split; [apply gt_spec|]. split; [apply lt_spec|].
  split; [intros ->; apply gt_irrefl|]. split; [intros ->; apply lt_irrefl|].
  intros [offset Hzone]. unfold JsDate.addDays, JsDate.msPerDay.
  destruct (Hzone now) as [-> _].
  split; (match goal with |- context [UTC h ?t] => destruct (Hzone t) as [_ ->] end);
    f_equal; lia.
Qed.

(** C6, counterexample.  At 2024-01-31 in the UTC zone a record created on
    2024-03-01, after [now], is counted as recently created although its
    creation time does not lie within the thirty days before [now]. *)
Lemma future_record_is_recently_created :
  Date_parse Applist.utcHost (Applist.createTime Applist.futureRecord)
    = Some 1709251200000%Z /\
  (Applist.sampleNow < 1709251200000)%Z /\
  Applist.isRecentlyCreated Applist.utcHost Applist.sampleNow Applist.futureRecord = true /\
  Applist.isRecentlyCreated_as_specified
    Applist.utcHost Applist.sampleNow Applist.futureRecord = false /\
  Applist.recentlyCreated
    (Applist.stats Applist.utcHost Applist.sampleNow [Applist.futureRecord]) = 1.
Proof. repeat split; reflexivity. Qed.

(** The boundary itself: in the UTC zone, a record created exactly thirty
    days before [now] is not counted. *)
Lemma boundary_record_not_counted :
  Date_parse Applist.utcHost (Applist.createTime Applist.bareRecord)
    = Some (Applist.sampleNow - 30 * JsDate.msPerDay)%Z /\
  Applist.isRecentlyCreated Applist.utcHost Applist.sampleNow Applist.bareRecord = false.
Proof. split; reflexivity. Qed.

(* ===================================================================== *)
(** ** Fetch lifecycle                                                    *)
(* ===================================================================== *)

(** X12.  [fetchApps] completes normally with the loading flag cleared,
    however the request settles: nothing is thrown to the caller. *)
Lemma fetchApps_settles (o : Applist.AxiosOutcome) (st : Applist.ListState) :
  exists st', Applist.fetchApps o st = (st', Normal tt) /\
              Applist.isLoading st' = false.
Proof.
  destruct o as [|data]; [eexists; split; reflexivity|].
  unfold Applist.fetchApps, Eff.bind, Eff.try_finally, Eff.try_catch, Eff.eval.
  cbn. destruct (JsValue.get data "data") as [d|msg]; cbn;
    [|eexists; split; reflexivity].
  destruct (JsValue.get d "appDeploymentRecords"); cbn; eexists; split; reflexivity.
Qed.

(** A rejected request leaves the record list as it was: empty on the
    first load. *)
Lemma fetchApps_rejected (st : Applist.ListState) :
  Applist.fetchApps Applist.AxiosRejected st =
    ({| Applist.apps := Applist.apps st; Applist.isLoading := false;
        Applist.console := Applist.console st ++ ["Error: Failed to fetch apps"] |},
     Normal tt).
Proof. reflexivity. Qed.

(** X24.  [fetchDeployments] completes normally with the loading flag
    cleared, however the request settles. *)
Lemma fetchDeployments_settles (o : AppPage.FetchOutcome) (st : AppPage.PageState) :
  exists st', AppPage.fetchDeployments o st = (st', Normal tt) /\
              AppPage.isLoading st' = false.
Proof.
  destruct o as [| |data]; try (eexists; split; reflexivity).
  unfold AppPage.fetchDeployments, Eff.bind, Eff.try_finally, Eff.try_catch, Eff.eval.
  cbn. destruct (JsValue.get data "errors") as [e|msg]; cbn;
    [|eexists; split; reflexivity].
  destruct (JsValue.truthy e); cbn; [eexists; split; reflexivity|].
  destruct (JsValue.get data "data") as [d|msg]; cbn;
    [|eexists; split; reflexivity].
  destruct (JsValue.get d "appDeploymentRecords"); cbn; eexists; split; reflexivity.
Qed.

(** X25.  The detail page checks the [errors] field: a payload that
    carries a truthy one leaves the deployments as they were, whatever
    its [data], and two lines are logged. *)
Lemma fetchDeployments_error_payload (data errors : value) (st : AppPage.PageState) :
  JsValue.get data "errors" = Normal errors ->
  JsValue.truthy errors = true ->
  AppPage.fetchDeployments (AppPage.JsonResolved data) st =
    ({| AppPage.deployments := AppPage.deployments st; AppPage.isLoading := false;
        AppPage.console := AppPage.console st
                           ++ ["GraphQL Errors:"] ++ ["Error fetching deployments:"] |},
     Normal tt).
Proof.
  intros Hget Htruthy.
  unfold AppPage.fetchDeployments, Eff.bind, Eff.try_finally, Eff.try_catch, Eff.eval.
  cbn. rewrite Hget. cbn. rewrite Htruthy. cbn.
  rewrite <- app_assoc. reflexivity.
Qed.

(** C7, at an error payload.  For the response
    [{ errors: [...], data: { appDeploymentRecords: null } }] the list view
    raises nothing, logs nothing and stores [null] as its record list,
    where the detail page, for the same payload, logs the errors and keeps
    its empty list. *)
Theorem fetchApps_error_payload_stores_null :
  (exists errors, JsValue.get Applist.errorPayload "errors" = Normal errors /\
                  JsValue.truthy errors = true) /\
  Applist.fetchApps (Applist.AxiosResolved Applist.errorPayload) Applist.initialListState =
    ({| Applist.apps := VNull; Applist.isLoading := false; Applist.console := [] |},
     Normal tt) /\
  AppPage.fetchDeployments (AppPage.JsonResolved Applist.errorPayload)
      AppPage.initialPageState =
    ({| AppPage.deployments := VArray []; AppPage.isLoading := false;
        AppPage.console := ["GraphQL Errors:"; "Error fetching deployments:"] |},
     Normal tt).
Proof.
  split; [eexists; split; reflexivity|]. split; reflexivity.
Qed.

(* ===================================================================== *)
(** ** Reachability endpoint                                              *)
(* ===================================================================== *)

(** C8 (as amended).  The endpoint always answers.  When the [url]
    parameter is missing or empty the answer is HTTP 400 with an error
    body.  Otherwise it is HTTP 200 with [{ isAvailable: b }], where [b] is
    the [ok] flag of the response to the HEAD request, and [false] when
    that request was rejected. *)
Theorem GET_answers (network : string -> CheckUrlRoute.HeadOutcome)
    (url : option string) (console : list string) :
  exists response console',
    CheckUrlRoute.GET network url console = (console', Normal response) /\
    match url with
    | Some (String c rest) =>
        CheckUrlRoute.status response = 200%Z /\
        CheckUrlRoute.body response =
          VObject [("isAvailable",
                    VBool match network (String c rest) with
                          | CheckUrlRoute.HeadResponse ok => ok
                          | CheckUrlRoute.HeadRejected => false
                          end)]
    | Some EmptyString | None =>
        CheckUrlRoute.status response = 400%Z /\
        CheckUrlRoute.body response =
          VObject [("error", VString "URL parameter is required")] /\
        console' = console
    end.
Proof.
  destruct url as [[|c rest]|]; try (do 2 eexists; split; [reflexivity|]; auto).
  unfold CheckUrlRoute.GET, Eff.try_catch, Eff.bind, CheckUrlRoute.fetch_head.
  cbn. destruct (network (String c rest)) as [|ok]; cbn;
    do 2 eexists; (split; [reflexivity|]); split; reflexivity.
Qed.

(** C8, counterexample.  A request with an empty [url] parameter
    ([/check-url?url=]) has the parameter, and is answered with HTTP 400,
    not with a success response. *)
Lemma GET_empty_url_is_400 :
  CheckUrlRoute.GET (fun _ => CheckUrlRoute.HeadResponse true) (Some "") [] =
    ([], Normal {| CheckUrlRoute.status := 400%Z;
                   CheckUrlRoute.body :=
                     VObject [("error", VString "URL parameter is required")] |}) /\
  CheckUrlRoute.status
    (CheckUrlRoute.GET_as_specified (fun _ => CheckUrlRoute.HeadResponse true) (Some ""))
    = 200%Z.
Proof. split; reflexivity. Qed.

(* ===================================================================== *)
(** ** URL reachability prober                                            *)
(* ===================================================================== *)

Section ProberFacts.
Variable server : nat -> string -> AppPage.FetchOutcome.

(** One probe, whatever the answer and whatever the state: the request is
    recorded and the loop goes on. *)
Lemma checkUrl_requests (i : nat) (url : string) (st : AppPage.UrlListState) :
  exists st',
    AppPage.checkUrl server i url st = (st', Normal tt) /\
    AppPage.requests st' = AppPage.requests st ++ [url].
Proof.
  unfold AppPage.checkUrl, AppPage.probe, AppPage.setUrlStatuses,
    Eff.try_catch, Eff.bind, Eff.modify.
  cbn. destruct (server i url) as [| |data]; cbn.
  - eexists. split; [reflexivity|]. destruct (AppPage.unmounted st); reflexivity.
  - eexists. split; [reflexivity|]. destruct (AppPage.unmounted st); reflexivity.
  - eexists. split; [reflexivity|].
    destruct (AppPage.unmounted st); [reflexivity|].
    destruct (JsValue.get data "isAvailable"); reflexivity.
Qed.

Lemma checkEach_requests (urls : list string) (i : nat) (st : AppPage.UrlListState) :
  exists st',
    AppPage.checkEach server i urls st = (st', Normal tt) /\
    AppPage.requests st' = AppPage.requests st ++ urls.
Proof.
  revert i st. induction urls as [|url urls IH]; intros i st.
  - exists st. split; [reflexivity|]. rewrite app_nil_r. reflexivity.
  - destruct (checkUrl_requests i url st) as (mid & Hstep & Hmid).
    destruct (IH (S i) mid) as (st' & Hrun & Hreq).
    exists st'. cbn [AppPage.checkEach]. unfold Eff.bind at 1. rewrite Hstep.
    split; [exact Hrun|]. rewrite Hreq, Hmid, <- app_assoc. reflexivity.
Qed.

(** One probe whose answer is readable, on a mounted component: the
    request is recorded and the entry of the URL is set to a terminal
    status. *)
Lemma checkUrl_step (i : nat) (url : string) (st : AppPage.UrlListState) :
  AppPage.answersReadable server ->
  AppPage.unmounted st = false ->
  exists s,
    AppPage.terminal s = true /\
    AppPage.checkUrl server i url st =
      ({| AppPage.urlStatuses := <[url := s]> (AppPage.urlStatuses st);
          AppPage.updates :=
            AppPage.updates st ++ [<[url := s]> (AppPage.urlStatuses st)];
          AppPage.requests := AppPage.requests st ++ [url];
          AppPage.unmounted := false |},
       Normal tt).
Proof.
  intros Hread Hmounted.
  unfold AppPage.checkUrl, AppPage.probe, AppPage.setUrlStatuses,
    Eff.try_catch, Eff.bind, Eff.modify.
  cbn. destruct (server i url) as [| |data] eqn:Hanswer; cbn; rewrite Hmounted.
  - exists AppPage.unavailable. split; reflexivity.
  - exists AppPage.unavailable. split; reflexivity.
  - destruct (Hread i url data Hanswer) as (flag & ->).
    destruct (JsValue.truthy flag);
      [exists AppPage.available | exists AppPage.unavailable];
      split; reflexivity.
Qed.

(** The loop over readable answers: every URL is requested, in order, and
    ends with a terminal status; the other entries are not touched. *)
Lemma checkEach_spec (urls : list string) (i : nat) (st : AppPage.UrlListState) :
  AppPage.answersReadable server ->
  AppPage.unmounted st = false ->
  exists st' later,
    AppPage.checkEach server i urls st = (st', Normal tt) /\
    AppPage.unmounted st' = false /\
    AppPage.requests st' = AppPage.requests st ++ urls /\
    AppPage.updates st' = AppPage.updates st ++ later /\
    List.length later = List.length urls /\
    dom (AppPage.urlStatuses st') =
      dom (AppPage.urlStatuses st) ∪ list_to_set urls /\
    (forall u, u ∈ urls ->
       exists s, AppPage.urlStatuses st' !! u = Some s /\ AppPage.terminal s = true) /\
    (forall u, u ∉ urls ->
       AppPage.urlStatuses st' !! u = AppPage.urlStatuses st !! u).
Proof.
  intros Hread. revert i st. induction urls as [|url urls IH]; intros i st Hmounted.
  - exists st, []. cbn. rewrite !app_nil_r.
    repeat split; auto. + set_solver. + intros u Hu. inversion Hu.
  - destruct (checkUrl_step i url st Hread Hmounted) as (s & Hs & Hstep).
    cbn [AppPage.checkEach]. unfold Eff.bind at 1. rewrite Hstep.
    match goal with |- context [AppPage.checkEach _ _ _ ?mid] =>
      destruct (IH (S i) mid eq_refl)
        as (st' & later & Hrun & Hmnt & Hreq & Hupd & Hlen & Hdom & Hin & Hout)
    end.
    exists st', (<[url := s]> (AppPage.urlStatuses st) :: later).
    cbn in Hreq, Hupd, Hdom, Hout.
    split; [exact Hrun|]. split; [exact Hmnt|].
    split; [rewrite Hreq, <- app_assoc; reflexivity|].
    split; [rewrite Hupd, <- app_assoc; reflexivity|].
    split; [cbn; rewrite Hlen; reflexivity|].
    split; [rewrite Hdom, dom_insert_L; set_solver|].
    split.
    + intros u Hu. destruct (decide (u ∈ urls)) as [Hin'|Hnin]; [auto|].
      apply elem_of_cons in Hu as [->|Hu]; [|contradiction].
      exists s. split; [|exact Hs]. rewrite Hout by exact Hnin.
      apply lookup_insert_eq.
    + intros u Hu. apply not_elem_of_cons in Hu as [Hne Hnin].
      rewrite Hout by exact Hnin. apply lookup_insert_ne. congruence.
Qed.

Lemma initialStatuses_spec (urls : list string) :
  dom (AppPage.initialStatuses urls) = list_to_set urls /\
  forall u s, AppPage.initialStatuses urls !! u = Some s -> s = AppPage.checking.
Proof.
  unfold AppPage.initialStatuses.
  assert (H : forall (acc : gmap string AppPage.UrlStatus),
             (forall u s, acc !! u = Some s -> s = AppPage.checking) ->
             dom (fold_left (fun m url => <[url := AppPage.checking]> m) urls acc)
               = dom acc ∪ list_to_set urls /\
             forall u s,
               fold_left (fun m url => <[url := AppPage.checking]> m) urls acc !! u
                 = Some s -> s = AppPage.checking).
  { induction urls as [|url urls IH]; intros acc Hacc; cbn.
    - split; [set_solver|exact Hacc].
    - destruct (IH (<[url := AppPage.checking]> acc)) as [Hdom Hval].
      + intros u s. rewrite lookup_insert. case_decide; [congruence|apply Hacc].
      + split; [rewrite Hdom, dom_insert_L; set_solver|exact Hval]. }
  destruct (H ∅) as [Hdom Hval].
  - intros u s. rewrite lookup_empty. discriminate.
  - split; [rewrite Hdom, dom_empty_L; set_solver|exact Hval].
Qed.

(** A run of [checkUrls] on a non-empty attribute, whatever the server
    answers: every segment is requested, in order, and the run ends. *)
Lemma checkUrls_requests
    (deployment : AppPage.DeploymentRecord) (attr : AppPage.Attribute) (text : string) :
  AppPage.urlAttribute deployment = Some attr ->
  AppPage.value_string attr = Some text ->
  text <> "" ->
  exists st,
    AppPage.checkUrls server deployment AppPage.initialUrlListState = (st, Normal tt) /\
    AppPage.requests st = Js.split "," text.
Proof.
  intros Hattr Hval Hne. unfold AppPage.checkUrls. rewrite Hattr, Hval.
  assert (Htruthy : Js.truthy text = true).
  { unfold Js.truthy. destruct (String.eqb_spec text ""); [contradiction|reflexivity]. }
  rewrite Htruthy. unfold Eff.bind at 1. cbn [AppPage.setUrlStatuses Eff.modify].
  cbn beta iota zeta.
  match goal with |- context [AppPage.checkEach _ _ ?urls ?mid] =>
    destruct (checkEach_requests urls 0 mid) as (st & Hrun & Hreq)
  end.
  exists st. split; [exact Hrun|exact Hreq].
Qed.

(** A run of [checkUrls] on a non-empty attribute when every answer is
    readable. *)
Lemma checkUrls_run
    (deployment : AppPage.DeploymentRecord) (attr : AppPage.Attribute) (text : string) :
  AppPage.answersReadable server ->
  AppPage.urlAttribute deployment = Some attr ->
  AppPage.value_string attr = Some text ->
  text <> "" ->
  exists st later,
    AppPage.checkUrls server deployment AppPage.initialUrlListState = (st, Normal tt) /\
    AppPage.unmounted st = false /\
    AppPage.requests st = Js.split "," text /\
    AppPage.updates st = AppPage.initialStatuses (Js.split "," text) :: later /\
    List.length later = List.length (Js.split "," text) /\
    dom (AppPage.urlStatuses st) = list_to_set (Js.split "," text) /\
    forall u, u ∈ Js.split "," text ->
      exists s, AppPage.urlStatuses st !! u = Some s /\ AppPage.terminal s = true.
Proof.
  intros Hread Hattr Hval Hne. unfold AppPage.checkUrls. rewrite Hattr, Hval.
  assert (Htruthy : Js.truthy text = true).
  { unfold Js.truthy. destruct (String.eqb_spec text ""); [contradiction|reflexivity]. }
  rewrite Htruthy. unfold Eff.bind at 1. cbn [AppPage.setUrlStatuses Eff.modify].
  cbn beta iota zeta.
  match goal with |- context [AppPage.checkEach _ _ ?urls ?mid] =>
    destruct (checkEach_spec urls 0 mid Hread eq_refl)
      as (st & later & Hrun & Hmnt & Hreq & Hupd & Hlen & Hdom & Hin & _)
  end.
  exists st, later. cbn in Hreq, Hupd, Hdom.
  destruct (initialStatuses_spec (Js.split "," text)) as [Hdom0 _].
  split; [exact Hrun|]. split; [exact Hmnt|]. split; [exact Hreq|].
  split; [exact Hupd|]. split; [exact Hlen|].
  split; [rewrite Hdom, Hdom0; set_solver|exact Hin].
Qed.

(** X15.  When no answer is the JSON value [null] (every parsed body has
    a readable [isAvailable]), no URL of the attribute is dropped: each
    one is requested, in the order of the attribute, and has a terminal
    status at the end; the first value of the map has exactly these URLs
    as keys, all [checking]; the component stays mounted. *)
Lemma checkUrls_resolves_every_url
    (deployment : AppPage.DeploymentRecord) (attr : AppPage.Attribute) (text : string) :
  AppPage.answersReadable server ->
  AppPage.urlAttribute deployment = Some attr ->
  AppPage.value_string attr = Some text ->
  text <> "" ->
  exists st,
    AppPage.checkUrls server deployment AppPage.initialUrlListState = (st, Normal tt) /\
    AppPage.unmounted st = false /\
    AppPage.requests st = Js.split "," text /\
    List.head (AppPage.updates st) = Some (AppPage.initialStatuses (Js.split "," text)) /\
    List.length (AppPage.updates st) = S (List.length (Js.split "," text)) /\
    dom (AppPage.urlStatuses st) = list_to_set (Js.split "," text) /\
    forall u, u ∈ Js.split "," text ->
      exists s, AppPage.urlStatuses st !! u = Some s /\ AppPage.terminal s = true.
Proof.
  intros Hread Hattr Hval Hne.
  destruct (checkUrls_run deployment attr text Hread Hattr Hval Hne)
    as (st & later & Hrun & Hmnt & Hreq & Hupd & Hlen & Hdom & Hin).
  exists st. split; [exact Hrun|]. split; [exact Hmnt|]. split; [exact Hreq|].
  split; [rewrite Hupd; reflexivity|].
  split; [rewrite Hupd; cbn; rewrite Hlen; reflexivity|].
  split; [exact Hdom|exact Hin].
Qed.

End ProberFacts.

(** The same run as in C4, evaluated: [http://a] ends [available],
    [http://b], which the network rejects, ends [unavailable]. *)
Example checkUrls_sample_run :
  AppPage.checkUrls (AppPage.served AppPage.sampleNetwork) AppPage.twoUrlDeployment
    AppPage.initialUrlListState
  = ({| AppPage.urlStatuses :=
          {[ "http://a" := AppPage.available; "http://b" := AppPage.unavailable ]};
        AppPage.updates :=
          [ {[ "http://a" := AppPage.checking; "http://b" := AppPage.checking ]};
            {[ "http://a" := AppPage.available; "http://b" := AppPage.checking ]};
            {[ "http://a" := AppPage.available; "http://b" := AppPage.unavailable ]} ];
        AppPage.requests := ["http://a"; "http://b"];
        AppPage.unmounted := false |},
     Normal tt).
Proof. reflexivity. Qed.

(** A body that is the JSON value [null], which the endpoint of this
    application never sends: [data.isAvailable] throws inside the
    updater, when React renders, and the [catch] clause of the loop does
    not see it.  The entry of [http://a] is not written, the component is
    unmounted, and the loop still sends the probe for [http://b]. *)
Example checkUrls_null_body_run :
  AppPage.checkUrls AppPage.nullServer AppPage.twoUrlDeployment
    AppPage.initialUrlListState
  = ({| AppPage.urlStatuses :=
          {[ "http://a" := AppPage.checking; "http://b" := AppPage.checking ]};
        AppPage.updates :=
          [ {[ "http://a" := AppPage.checking; "http://b" := AppPage.checking ]} ];
        AppPage.requests := ["http://a"; "http://b"];
        AppPage.unmounted := true |},
     Normal tt).
Proof. reflexivity. Qed.

(** C10.  When the deployment has no "url" attribute, or the string value
    of that attribute is absent or empty, [checkUrls] changes nothing: no
    probe is sent, the status map is not set, and from the initial state
    the map stays empty with no request recorded, the empty string
    included; [UrlList] renders the "No URLs available" fallback. *)
Theorem checkUrls_without_urls
    (server : nat -> string -> AppPage.FetchOutcome)
    (deployment : AppPage.DeploymentRecord) (st : AppPage.UrlListState) :
  (AppPage.urlAttribute deployment = None \/
   exists attr, AppPage.urlAttribute deployment = Some attr /\
                (AppPage.value_string attr = None \/
                 AppPage.value_string attr = Some "")) ->
  AppPage.checkUrls server deployment st = (st, Normal tt) /\
  AppPage.checkUrls server deployment AppPage.initialUrlListState =
    ({| AppPage.urlStatuses := ∅; AppPage.updates := []; AppPage.requests := [];
        AppPage.unmounted := false |},
     Normal tt) /\
  ("" ∉ AppPage.requests
          (fst (AppPage.checkUrls server deployment AppPage.initialUrlListState))) /\
  AppPage.UrlList deployment (AppPage.urlStatuses st) = AppPage.NoUrlsAvailable.
Proof.
  intros H.
  assert (Hrun : forall s, AppPage.checkUrls server deployment s = (s, Normal tt)).
  { intros s. unfold AppPage.checkUrls.
    destruct H as [-> | (attr & -> & [-> | ->])]; reflexivity. }
  split; [apply Hrun|]. split; [apply Hrun|]. split.
  - rewrite Hrun. cbn. apply not_elem_of_nil.
  - unfold AppPage.UrlList.
    destruct H as [-> | (attr & -> & [-> | ->])]; reflexivity.
Qed.

(** C10, witness: a deployment without "url" attribute and one whose
    "url" attribute is empty. *)
Lemma checkUrls_without_urls_witness :
  (AppPage.checkUrls (AppPage.served AppPage.sampleNetwork) AppPage.noUrlDeployment
     AppPage.initialUrlListState = (AppPage.initialUrlListState, Normal tt) /\
   AppPage.UrlList AppPage.noUrlDeployment ∅ = AppPage.NoUrlsAvailable) /\
  (AppPage.checkUrls (AppPage.served AppPage.sampleNetwork) AppPage.emptyUrlDeployment
     AppPage.initialUrlListState = (AppPage.initialUrlListState, Normal tt) /\
   AppPage.UrlList AppPage.emptyUrlDeployment ∅ = AppPage.NoUrlsAvailable).
Proof.
  split.
  - destruct (checkUrls_without_urls (AppPage.served AppPage.sampleNetwork)
                AppPage.noUrlDeployment AppPage.initialUrlListState)
      as (Hrun & _ & _ & Hview); [left; reflexivity|].
    split; [exact Hrun | exact Hview].
  - destruct (checkUrls_without_urls (AppPage.served AppPage.sampleNetwork)
                AppPage.emptyUrlDeployment AppPage.initialUrlListState)
      as (Hrun & _ & _ & Hview).
    + right. eexists. split; [reflexivity|]. right. reflexivity.
    + split; [exact Hrun | exact Hview].
Defined.

(** The guard looks at the whole attribute only.  An empty segment of a
    non-empty attribute is probed like any URL; the endpoint answers it
    with its error body, and the entry of the empty string ends
    [unavailable]. *)
Example checkUrls_gap_run :
  AppPage.requests
    (fst (AppPage.checkUrls (AppPage.served AppPage.sampleNetwork)
            AppPage.gapUrlDeployment AppPage.initialUrlListState))
    = ["http://a"; ""; "http://b"] /\
  AppPage.urlStatuses
    (fst (AppPage.checkUrls (AppPage.served AppPage.sampleNetwork)
            AppPage.gapUrlDeployment AppPage.initialUrlListState))
    = {[ "http://a" := AppPage.available; "" := AppPage.unavailable;
         "http://b" := AppPage.unavailable ]}.
Proof. split; reflexivity. Qed.

(** Statistics of three sample records: two of them derive "Unknown" and
    share one bucket. *)
Example stats_sample :
  Applist.stats Applist.utcHost Applist.sampleNow
    [Applist.bareRecord; Applist.futureRecord; Applist.bareRecord]
  = {| Applist.totalApps := 3; Applist.uniqueAuthorities := 2;
       Applist.recentlyCreated := 1; Applist.soonExpiring := 0 |}.
Proof. reflexivity. Qed.

(* ===================================================================== *)
(** ** Further properties: authority and search                           *)
(* ===================================================================== *)

Section MoreStringFacts.

Lemma append_assoc (a b c : string) : (a +:+ b) +:+ c = a +:+ b +:+ c.
Proof.
  induction a as [|x a IH]; [reflexivity|].
  change (String x ((a +:+ b) +:+ c) = String x (a +:+ b +:+ c)).
  rewrite IH. reflexivity.
Qed.

Lemma append_empty_r (a : string) : a +:+ "" = a.
Proof.
  induction a as [|x a IH]; [reflexivity|].
  change (String x (a +:+ "") = String x a). rewrite IH. reflexivity.
Qed.

Lemma toLowerCase_app (a b : string) :
  Js.toLowerCase (a +:+ b) = Js.toLowerCase a +:+ Js.toLowerCase b.
Proof.
  induction a as [|x a IH]; [reflexivity|].
  change (String (Js.lower_unit x) (Js.toLowerCase (a +:+ b))
          = String (Js.lower_unit x) (Js.toLowerCase a +:+ Js.toLowerCase b)).
  rewrite IH. reflexivity.
Qed.

(** A substring of a substring is a substring. *)
Lemma includes_inner (s pre t post : string) :
  Js.includes s (pre +:+ t +:+ post) = true -> Js.includes s t = true.
Proof.
  rewrite !includes_spec. intros (a & b & ->).
  exists (a +:+ pre), (post +:+ b).
  rewrite !append_assoc. reflexivity.
Qed.

Lemma includes_slash_unknown : Js.includes "Unknown" "/" = false.
Proof. reflexivity. Qed.

End MoreStringFacts.

(** The two ways [getAuthority] ends: with "Unknown", or with the
    non-empty text between [lrn://] and the next [/] of one of the names. *)
Lemma getAuthority_cases (names : list string) :
  Applist.getAuthority names = "Unknown" \/
  exists segment tail,
    In ("lrn://" +:+ segment +:+ tail) names /\
    Js.truthy segment = true /\
    Js.includes segment "/" = false /\
    Applist.getAuthority names = segment.
Proof.
  unfold Applist.getAuthority.
  destruct (List.find _ names) as [lrnName|] eqn:Hfind; [|left; reflexivity].
  apply List.find_some in Hfind as [Hin Hpre].
  apply prefix_inv in Hpre as [rest ->].
  destruct (split_head "/" rest) as (seg & tail & segs & Hs & -> & Hno & _).
  rewrite split_lrn, Hs. cbn.
  destruct (Js.truthy seg) eqn:Hseg; [|left; reflexivity].
  right. exists seg, tail. auto.
Qed.

(** X1.  The derived authority is never the empty string and never holds
    a [/]: it is "Unknown" or one path segment. *)
Theorem getAuthority_is_a_segment (names : list string) :
  Js.truthy (Applist.getAuthority names) = true /\
  Js.includes (Applist.getAuthority names) "/" = false.
Proof.
  destruct (getAuthority_cases names) as [-> | (seg & tail & _ & Ht & Hno & ->)].
  - split; reflexivity.
  - split; assumption.
Qed.

(** X2.  Names without the prefix [lrn://] are skipped and the first name
    with the prefix decides alone: the names after it are not looked at,
    even when it yields "Unknown". *)
Theorem getAuthority_first_lrn_name_decides
    (before after : list string) (lrnName : string) :
  Forall (fun n => Js.startsWith n "lrn://" = false) before ->
  Js.startsWith lrnName "lrn://" = true ->
  Applist.getAuthority (before ++ lrnName :: after) = Applist.getAuthority [lrnName].
Proof.
  intros Hbefore Hpre. unfold Applist.getAuthority.
  assert (Hfind : forall l,
            List.find (fun name => Js.startsWith name "lrn://")
                      (before ++ lrnName :: l) = Some lrnName).
  { intros l. induction Hbefore as [|n before Hn _ IH]; cbn.
    - rewrite Hpre. reflexivity.
    - rewrite Hn. exact IH. }
  rewrite Hfind. cbn [List.find]. rewrite Hpre. reflexivity.
Qed.

(** X2, witness. *)
Lemma getAuthority_first_lrn_name_decides_witness :
  Applist.getAuthority (["demo"; "LRN://upper/x"] ++ "lrn://" :: ["lrn://laconic/app"])
  = Applist.getAuthority ["lrn://"].
Proof.
  apply (getAuthority_first_lrn_name_decides
           ["demo"; "LRN://upper/x"] ["lrn://laconic/app"] "lrn://").
  - repeat constructor.
  - reflexivity.
Defined.

(** X3.  The list shown is the records that match the search term, each
    as often as in the record list, in some order: nothing is added, and
    the count shown never exceeds the number of records. *)
Theorem filteredAndSortedApps_is_the_matching_records
    (h : Host) (searchTerm : string) (sortOption : Applist.SortOption)
    (apps : list Applist.ApplicationRecord) :
  Permutation (Applist.filteredAndSortedApps h searchTerm sortOption apps)
              (List.filter (Applist.matchesSearch searchTerm) apps) /\
  Forall (fun app => Applist.matchesSearch searchTerm app = true /\ In app apps)
         (Applist.filteredAndSortedApps h searchTerm sortOption apps) /\
  List.length (Applist.filteredAndSortedApps h searchTerm sortOption apps)
    <= List.length apps.
Proof.
  assert (Hperm : Permutation
            (Applist.filteredAndSortedApps h searchTerm sortOption apps)
            (List.filter (Applist.matchesSearch searchTerm) apps)).
  { apply sort_perm. }
  split; [exact Hperm|]. split.
  - apply List.Forall_forall. intros app Hin.
    apply (Permutation_in _ Hperm) in Hin.
    apply List.filter_In in Hin. tauto.
  - rewrite (Permutation_length Hperm). apply List.filter_length_le.
Qed.

(** X4.  For ASCII text: a record whose "name" attribute holds the
    search term, in any letter case, passes the filter.  (Outside ASCII
    the case mapping of a name is not that of its parts.) *)
Theorem name_substring_is_found
    (searchTerm pre t post : string) (app : Applist.ApplicationRecord) :
  Applist.attributeString "name" app = Some (pre +:+ t +:+ post) ->
  Js.isAscii (pre +:+ t +:+ post) = true ->
  Js.isAscii searchTerm = true ->
  Js.toLowerCase searchTerm = Js.toLowerCase t ->
  Applist.matchesSearch searchTerm app = true.
Proof.
  intros Hname _ _ Hcase. unfold Applist.matchesSearch. rewrite Hname, Hcase.
  assert (Hor : Js.or_else (Some (pre +:+ t +:+ post)) "" = pre +:+ t +:+ post).
  { unfold Js.or_else, Js.truthy.
    destruct (String.eqb_spec (pre +:+ t +:+ post) "") as [->|]; reflexivity. }
  rewrite Hor.
  assert (Hin : Js.includes (Js.toLowerCase (pre +:+ t +:+ post)) (Js.toLowerCase t)
                = true).
  { apply includes_spec. exists (Js.toLowerCase pre), (Js.toLowerCase post).
    rewrite !toLowerCase_app. reflexivity. }
  rewrite Hin. reflexivity.
Qed.

(** X5.  A record found under a search term of ASCII text is found under
    every part of that term: typing more such characters can only narrow
    the list.  The fields of the record are any text: only the term is
    taken apart. *)
Theorem matchesSearch_part_of_term
    (pre t post : string) (app : Applist.ApplicationRecord) :
  Js.isAscii (pre +:+ t +:+ post) = true ->
  Applist.matchesSearch (pre +:+ t +:+ post) app = true ->
  Applist.matchesSearch t app = true.
Proof.
  intros _.
  unfold Applist.matchesSearch. rewrite !toLowerCase_app, !orb_true_iff.
  intros [[H|H]|H]; apply includes_inner in H; auto.
Qed.

(** X4, witness: "CONSOLE" is found in the name "Laconic Console". *)
Lemma name_substring_is_found_witness :
  Applist.matchesSearch "CONSOLE" Samples.consoleRecord = true.
Proof.
  apply (name_substring_is_found "CONSOLE" "Laconic " "Console" "" Samples.consoleRecord);
    reflexivity.
Defined.

(** X5, witness: found under "laconic con", hence under "conic". *)
Lemma matchesSearch_part_of_term_witness :
  Applist.matchesSearch "conic" Samples.consoleRecord = true.
Proof.
  apply (matchesSearch_part_of_term "la" "conic" " con" Samples.consoleRecord);
    reflexivity.
Defined.

(* ===================================================================== *)
(** ** Further properties: ordering                                       *)
(* ===================================================================== *)

Section MoreSortFacts.
Context {A : Type} (compareFn : A -> A -> option Z).

Lemma sort_cons (x : A) (l : list A) :
  JsArray.sort compareFn (x :: l)
  = JsArray.insert compareFn x (JsArray.sort compareFn l).
Proof. reflexivity. Qed.

(** A list that is already in order is returned as it is. *)
Lemma sort_of_sorted (l : list A) :
  Sorted (JsArrayOrder.may_precede compareFn) l -> JsArray.sort compareFn l = l.
Proof.
  induction 1 as [|x l Hsorted IH Hhd]; [reflexivity|].
  rewrite sort_cons, IH. destruct Hhd as [|y l Hxy]; [reflexivity|].
  cbn. unfold JsArrayOrder.may_precede in Hxy. rewrite Hxy. reflexivity.
Qed.

Hypothesis after_asym :
  forall a b, JsArray.after compareFn a b = true -> JsArray.after compareFn b a = false.

Lemma insert_sorted (x : A) (l : list A) :
  Sorted (JsArrayOrder.may_precede compareFn) l ->
  Sorted (JsArrayOrder.may_precede compareFn) (JsArray.insert compareFn x l).
Proof.
  induction 1 as [|y l Hsorted IH Hhd]; cbn.
  - repeat constructor.
  - destruct (JsArray.after compareFn x y) eqn:Hxy.
    + constructor; [exact IH|].
      destruct Hhd as [|z l Hyz]; cbn.
      * constructor. apply after_asym, Hxy.
      * destruct (JsArray.after compareFn x z); constructor;
          [exact Hyz | apply after_asym, Hxy].
    + repeat constructor; assumption.
Qed.

Lemma sort_sorted (l : list A) :
  Sorted (JsArrayOrder.may_precede compareFn) (JsArray.sort compareFn l).
Proof.
  induction l as [|x l IH]; [constructor|].
  rewrite sort_cons. apply insert_sorted, IH.
Qed.

Lemma sort_idempotent (l : list A) :
  JsArray.sort compareFn (JsArray.sort compareFn l) = JsArray.sort compareFn l.
Proof. apply sort_of_sorted, sort_sorted. Qed.

End MoreSortFacts.

Section StableSort.
Context {A K : Type} `{EqDecision K} (compareFn : A -> A -> option Z) (key : A -> K).

(** Only elements with different keys are ever reordered. *)
Hypothesis after_key :
  forall a b, JsArray.after compareFn a b = true -> key a <> key b.

Lemma insert_same_key (k : K) (x : A) (l : list A) :
  List.filter (fun a => bool_decide (key a = k)) (JsArray.insert compareFn x l)
  = List.filter (fun a => bool_decide (key a = k)) (x :: l).
Proof.
  induction l as [|y l IH]; [reflexivity|].
  cbn [JsArray.insert]. destruct (JsArray.after compareFn x y) eqn:Hxy; [|reflexivity].
  apply after_key in Hxy.
  cbn [List.filter] in *. rewrite IH.
  repeat case_bool_decide; congruence.
Qed.

Lemma sort_stable (k : K) (l : list A) :
  List.filter (fun a => bool_decide (key a = k)) (JsArray.sort compareFn l)
  = List.filter (fun a => bool_decide (key a = k)) l.
Proof.
  induction l as [|x l IH]; [reflexivity|].
  change (JsArray.sort compareFn (x :: l))
    with (JsArray.insert compareFn x (JsArray.sort compareFn l)).
  rewrite insert_same_key. cbn [List.filter]. rewrite IH. reflexivity.
Qed.

End StableSort.

Section CompareAppsFacts.
Variable h : Host.

Lemma after_time_inv (a b : Applist.ApplicationRecord) :
  JsArray.after (Applist.compareApps h Applist.time) a b = true ->
  exists ta tb,
    Date_parse h (Applist.createTime a) = Some ta /\
    Date_parse h (Applist.createTime b) = Some tb /\ (ta < tb)%Z.
Proof.
  unfold JsArray.after, Applist.compareApps, JsDate.sub.
  destruct (Date_parse h (Applist.createTime b)) as [tb|]; [|discriminate].
  destruct (Date_parse h (Applist.createTime a)) as [ta|]; [|discriminate].
  intros H. exists ta, tb. repeat split. lia.
Qed.

Lemma after_time_asym (a b : Applist.ApplicationRecord) :
  JsArray.after (Applist.compareApps h Applist.time) a b = true ->
  JsArray.after (Applist.compareApps h Applist.time) b a = false.
Proof.
  intros H. destruct (after_time_inv _ _ H) as (ta & tb & Ha & Hb & Hlt).
  unfold JsArray.after, Applist.compareApps. rewrite Ha, Hb. cbn. lia.
Qed.

Lemma after_time_key (a b : Applist.ApplicationRecord) :
  JsArray.after (Applist.compareApps h Applist.time) a b = true ->
  Date_parse h (Applist.createTime a) <> Date_parse h (Applist.createTime b).
Proof.
  intros H. destruct (after_time_inv _ _ H) as (ta & tb & -> & -> & Hlt).
  intros [= ->]. lia.
Qed.

Lemma after_text (o : Applist.SortOption) (a b : Applist.ApplicationRecord) :
  o <> Applist.time ->
  JsArray.after (Applist.compareApps h o) a b
  = (0 <? localeCompare h (ApplistView.sortText o a) (ApplistView.sortText o b))%Z.
Proof. destruct o; [congruence| | |]; reflexivity. Qed.

Lemma after_asym_all (o : Applist.SortOption) :
  (forall s t, (0 < localeCompare h s t)%Z -> (localeCompare h t s <= 0)%Z) ->
  forall a b,
    JsArray.after (Applist.compareApps h o) a b = true ->
    JsArray.after (Applist.compareApps h o) b a = false.
Proof.
  intros Hlc a b.
  assert (Hcase : o = Applist.time \/ o <> Applist.time)
    by (destruct o; auto; right; discriminate).
  destruct Hcase as [->|Hne].
  - apply after_time_asym.
  - rewrite !after_text by exact Hne. intros H.
    apply Z.ltb_lt, Hlc in H. lia.
Qed.

Lemma filtered_all_match (searchTerm : string) (o : Applist.SortOption)
    (apps : list Applist.ApplicationRecord) :
  List.filter (Applist.matchesSearch searchTerm)
              (Applist.filteredAndSortedApps h searchTerm o apps)
  = Applist.filteredAndSortedApps h searchTerm o apps.
Proof.
  apply List.forallb_filter_id, List.forallb_forall. intros app Hin.
  unfold Applist.filteredAndSortedApps in Hin.
  apply (Permutation_in _ (sort_perm _ _)) in Hin.
  apply List.filter_In in Hin. tauto.
Qed.

End CompareAppsFacts.

(** X6.  Sorted by "time", when every creation time is a valid date the
    list runs from newest to oldest: each record is at least as new as
    every record after it, so the first one is a newest one. *)
Theorem sorted_by_time_newest_first
    (h : Host) (searchTerm : string) (apps : list Applist.ApplicationRecord) :
  Forall (fun app => exists t, Date_parse h (Applist.createTime app) = Some t) apps ->
  StronglySorted
    (fun a b => exists ta tb,
       Date_parse h (Applist.createTime a) = Some ta /\
       Date_parse h (Applist.createTime b) = Some tb /\ (tb <= ta)%Z)
    (Applist.filteredAndSortedApps h searchTerm Applist.time apps).
Proof.
  intros Hvalid.
  set (result := Applist.filteredAndSortedApps h searchTerm Applist.time apps).
  assert (Hres : Forall (fun app =>
            exists t, Date_parse h (Applist.createTime app) = Some t) result).
  { apply List.Forall_forall. intros app Hin.
    apply (Permutation_in _ (sort_perm _ _)) in Hin.
    apply List.filter_In in Hin as [Hin _].
    revert app Hin. apply List.Forall_forall, Hvalid. }
  assert (Hsorted : Sorted (JsArrayOrder.may_precede
                              (Applist.compareApps h Applist.time)) result).
  { apply sort_sorted, after_time_asym. }
  clearbody result. clear Hvalid.
  induction Hsorted as [|a l Hsorted IH Hhd]; [constructor|].
  apply List.Forall_cons_iff in Hres as [[ta Ha] Hl].
  specialize (IH Hl). constructor; [exact IH|].
  destruct Hhd as [|b l Hab]; [constructor|].
  apply StronglySorted_inv in IH as [_ Hb].
  apply List.Forall_cons_iff in Hl as [[tb Hb'] Hl].
  assert (Hle : (tb <= ta)%Z).
  { unfold JsArrayOrder.may_precede, JsArray.after, Applist.compareApps in Hab.
    rewrite Ha, Hb' in Hab. cbn in Hab. lia. }
  constructor.
  - exists ta, tb. auto.
  - revert Hb. apply List.Forall_impl.
    intros c (tb0 & tc & Hb0 & Hc & Hcb). exists ta, tc.
    rewrite Hb' in Hb0. injection Hb0 as <-. repeat split; auto. lia.
Qed.

(** X7.  When every creation time is a valid date (the comparator by
    time is then consistent), the sort by "time" is stable: the records
    with one and the same creation instant keep the order they have in
    the record list. *)
Theorem sort_by_time_is_stable
    (h : Host) (searchTerm : string) (apps : list Applist.ApplicationRecord)
    (instant : Z) :
  Forall (fun app => exists t, Date_parse h (Applist.createTime app) = Some t) apps ->
  List.filter
    (fun app => bool_decide (Date_parse h (Applist.createTime app) = Some instant))
    (Applist.filteredAndSortedApps h searchTerm Applist.time apps)
  = List.filter
      (fun app => bool_decide (Date_parse h (Applist.createTime app) = Some instant))
      (List.filter (Applist.matchesSearch searchTerm) apps).
Proof.
  intros _.
  unfold Applist.filteredAndSortedApps.
  apply (sort_stable (Applist.compareApps h Applist.time)
                     (fun app => Date_parse h (Applist.createTime app))).
  apply after_time_key.
Qed.

(** X8.  Filtering and sorting the list that is shown gives that list
    again, for every sort option, when the comparator is consistent: by
    "time", every creation time is a valid date; by a text,
    [localeCompare] is an order (one text is ranked after another exactly
    when the other is ranked before it, and the ranking is transitive). *)
Theorem filteredAndSortedApps_again
    (h : Host) (searchTerm : string) (sortOption : Applist.SortOption)
    (apps : list Applist.ApplicationRecord) :
  (sortOption = Applist.time ->
   Forall (fun app => exists t, Date_parse h (Applist.createTime app) = Some t) apps) ->
  (forall s t, (0 < localeCompare h s t)%Z <-> (localeCompare h t s < 0)%Z) ->
  (forall s t u, (localeCompare h s t <= 0)%Z -> (localeCompare h t u <= 0)%Z ->
                 (localeCompare h s u <= 0)%Z) ->
  Applist.filteredAndSortedApps h searchTerm sortOption
    (Applist.filteredAndSortedApps h searchTerm sortOption apps)
  = Applist.filteredAndSortedApps h searchTerm sortOption apps.
Proof.
  intros _ Hlc _.
  unfold Applist.filteredAndSortedApps at 1. rewrite filtered_all_match.
  apply sort_of_sorted. apply sort_sorted. apply after_asym_all.
  intros s t Hst. apply Hlc in Hst. lia.
Qed.

(** X9.  Sorted by "name", "authority" or "owner", the list is in
    ascending order of the compared text: [localeCompare] ranks no record
    after a record that follows it, provided [localeCompare] is a
    consistent order (never two texts each after the other, and
    transitive). *)
Theorem sorted_by_text_ascending
    (h : Host) (searchTerm : string) (sortOption : Applist.SortOption)
    (apps : list Applist.ApplicationRecord) :
  sortOption <> Applist.time ->
  (forall s t, (0 < localeCompare h s t)%Z -> (localeCompare h t s <= 0)%Z) ->
  (forall s t u, (localeCompare h s t <= 0)%Z -> (localeCompare h t u <= 0)%Z ->
                 (localeCompare h s u <= 0)%Z) ->
  StronglySorted
    (fun a b => (localeCompare h (ApplistView.sortText sortOption a)
                                 (ApplistView.sortText sortOption b) <= 0)%Z)
    (Applist.filteredAndSortedApps h searchTerm sortOption apps).
Proof.
  intros Hne Hasym Htrans.
  apply Sorted_StronglySorted.
  - intros a b c Hab Hbc. exact (Htrans _ _ _ Hab Hbc).
  - unfold Applist.filteredAndSortedApps.
    pose proof (sort_sorted (Applist.compareApps h sortOption)
                  (after_asym_all h sortOption Hasym)
                  (List.filter (Applist.matchesSearch searchTerm) apps)) as Hsorted.
    revert Hsorted. generalize (JsArray.sort (Applist.compareApps h sortOption)
                  (List.filter (Applist.matchesSearch searchTerm) apps)).
    intros l. induction 1 as [|a l Hsorted IH Hhd]; constructor; [exact IH|].
    destruct Hhd as [|b l Hab]; constructor.
    unfold JsArrayOrder.may_precede in Hab.
    rewrite after_text in Hab by exact Hne. lia.
Qed.

(** The collation of [utcHost] is a consistent order. *)
Lemma utcHost_localeCompare_asym (s t : string) :
  (0 < localeCompare Applist.utcHost s t)%Z ->
  (localeCompare Applist.utcHost t s <= 0)%Z.
Proof.
  cbn. rewrite (String.compare_antisym t s).
  destruct (String.compare s t); cbn; lia.
Qed.

Lemma utcHost_localeCompare_leb (s t : string) :
  (localeCompare Applist.utcHost s t <= 0)%Z <-> String.leb s t = true.
Proof.
  cbn. unfold String.leb.
  destruct (String.compare s t); split; intros H;
    try reflexivity; try lia; discriminate.
Qed.

Lemma utcHost_localeCompare_trans (s t u : string) :
  (localeCompare Applist.utcHost s t <= 0)%Z ->
  (localeCompare Applist.utcHost t u <= 0)%Z ->
  (localeCompare Applist.utcHost s u <= 0)%Z.
Proof.
  rewrite !utcHost_localeCompare_leb. intros Hst Htu.
  apply Is_true_true. apply Is_true_true in Hst, Htu.
  exact (transitivity (R:=String.le) Hst Htu).
Qed.

(** X6, witness: the older sample record first in the input. *)
Lemma sorted_by_time_newest_first_witness :
  StronglySorted
    (fun a b => exists ta tb,
       Date_parse Applist.utcHost (Applist.createTime a) = Some ta /\
       Date_parse Applist.utcHost (Applist.createTime b) = Some tb /\ (tb <= ta)%Z)
    (Applist.filteredAndSortedApps Applist.utcHost "" Applist.time
       [Samples.walletRecord; Samples.consoleRecord]).
Proof.
  apply (sorted_by_time_newest_first Applist.utcHost ""
           [Samples.walletRecord; Samples.consoleRecord]).
  repeat constructor; eexists; reflexivity.
Defined.

Lemma utcHost_localeCompare_sign (s t : string) :
  (0 < localeCompare Applist.utcHost s t)%Z <-> (localeCompare Applist.utcHost t s < 0)%Z.
Proof.
  cbn. rewrite (String.compare_antisym t s).
  destruct (String.compare s t); cbn; lia.
Qed.

(** X7, witness: the two sample records created at the first instant of
    2024 keep their order, the wallet before the bare record. *)
Lemma sort_by_time_is_stable_witness :
  List.filter
    (fun app => bool_decide (Date_parse Applist.utcHost (Applist.createTime app)
                             = Some 1704067200000%Z))
    (Applist.filteredAndSortedApps Applist.utcHost "" Applist.time
       [Samples.walletRecord; Samples.consoleRecord; Applist.bareRecord])
  = List.filter
      (fun app => bool_decide (Date_parse Applist.utcHost (Applist.createTime app)
                               = Some 1704067200000%Z))
      (List.filter (Applist.matchesSearch "")
         [Samples.walletRecord; Samples.consoleRecord; Applist.bareRecord]).
Proof.
  apply (sort_by_time_is_stable Applist.utcHost ""
           [Samples.walletRecord; Samples.consoleRecord; Applist.bareRecord]
           1704067200000%Z).
  repeat constructor; eexists; reflexivity.
Defined.

(** X8, witness: the three sample records, whose dates are valid, by
    time. *)
Lemma filteredAndSortedApps_again_witness :
  Applist.filteredAndSortedApps Applist.utcHost "a" Applist.time
    (Applist.filteredAndSortedApps Applist.utcHost "a" Applist.time
       [Samples.walletRecord; Samples.consoleRecord; Applist.bareRecord])
  = Applist.filteredAndSortedApps Applist.utcHost "a" Applist.time
      [Samples.walletRecord; Samples.consoleRecord; Applist.bareRecord].
Proof.
  apply (filteredAndSortedApps_again Applist.utcHost "a" Applist.time
           [Samples.walletRecord; Samples.consoleRecord; Applist.bareRecord]).
  - intros _. repeat constructor; eexists; reflexivity.
  - exact utcHost_localeCompare_sign.
  - exact utcHost_localeCompare_trans.
Defined.

(** X9, witness. *)
Lemma sorted_by_text_ascending_witness :
  StronglySorted
    (fun a b => (localeCompare Applist.utcHost
                   (ApplistView.sortText Applist.authority a)
                   (ApplistView.sortText Applist.authority b) <= 0)%Z)
    (Applist.filteredAndSortedApps Applist.utcHost "" Applist.authority
       [Samples.walletRecord; Samples.consoleRecord; Applist.bareRecord]).
Proof.
  apply (sorted_by_text_ascending Applist.utcHost "" Applist.authority
           [Samples.walletRecord; Samples.consoleRecord; Applist.bareRecord]).
  - discriminate.
  - exact utcHost_localeCompare_asym.
  - exact utcHost_localeCompare_trans.
Defined.

Example sort_samples :
  List.map Applist.id
    (Applist.filteredAndSortedApps Applist.utcHost "" Applist.time
       [Samples.walletRecord; Samples.consoleRecord; Applist.bareRecord])
  = ["bafy-3"; "bafy-4"; "bafy-1"] /\
  List.map Applist.id
    (Applist.filteredAndSortedApps Applist.utcHost "" Applist.authority
       [Samples.walletRecord; Samples.consoleRecord; Applist.bareRecord])
  = ["bafy-1"; "bafy-4"; "bafy-3"].
Proof. split; reflexivity. Qed.

(* ===================================================================== *)
(** ** Further properties: statistics                                     *)
(* ===================================================================== *)

Section MoreStatsFacts.

Lemma filter_perm {A : Type} (p : A -> bool) (l l' : list A) :
  Permutation l l' -> Permutation (List.filter p l) (List.filter p l').
Proof.
  induction 1 as [|x l l' _ IH|x y l|l l' l'' _ IH1 _ IH2]; cbn.
  - constructor.
  - destruct (p x); [constructor|]; exact IH.
  - destruct (p x), (p y); try reflexivity. apply perm_swap.
  - etransitivity; eassumption.
Qed.

Lemma of_array_length_le (l : list string) :
  JsSet.size (JsSet.of_array l) <= List.length l.
Proof.
  destruct (of_array_spec l) as [Hnd Hin]. unfold JsSet.size.
  apply List.NoDup_incl_length; [apply NoDup_ListNoDup, Hnd|].
  intros y Hy. apply list_elem_of_In, Hin, list_elem_of_In, Hy.
Qed.

Lemma of_array_nil_iff (l : list string) : JsSet.of_array l = [] <-> l = [].
Proof.
  destruct (of_array_spec l) as [_ Hin]. split.
  - intros Hnil. destruct l as [|x l]; [reflexivity|].
    assert (Hx : x ∈ JsSet.of_array (x :: l)) by (apply Hin; left).
    rewrite Hnil in Hx. inversion Hx.
  - intros ->. reflexivity.
Qed.

(** A filter whose callbacks all read the same instant is the filter at
    that instant. *)
Lemma filterAtClock_constant {A : Type} (test : Z -> A -> bool) (clock : nat -> Z)
    (now : Z) (l : list A) (first : nat) :
  (forall k, clock k = now) ->
  Applist.filterAtClock test clock first l = List.filter (test now) l.
Proof.
  intros Hclock. unfold Applist.filterAtClock. revert first.
  induction l as [|x l IH]; intros first; [reflexivity|].
  cbn [List.length List.seq List.combine List.filter fst snd].
  rewrite Hclock. destruct (test now x); cbn [List.map snd]; rewrite IH; reflexivity.
Qed.

(** [stats] is [statsAtClock] for a clock that stands still. *)
Lemma statsAtClock_constant (h : Host) (clock : nat -> Z) (now : Z)
    (apps : list Applist.ApplicationRecord) :
  (forall k, clock k = now) ->
  Applist.statsAtClock h clock apps = Applist.stats h now apps.
Proof.
  intros Hclock. unfold Applist.statsAtClock, Applist.stats.
  rewrite !(filterAtClock_constant _ clock now) by exact Hclock. reflexivity.
Qed.

(** The two counters that read no clock are those of [stats]. *)
Lemma statsAtClock_clock_free (h : Host) (clock : nat -> Z) (now : Z)
    (apps : list Applist.ApplicationRecord) :
  Applist.totalApps (Applist.statsAtClock h clock apps)
    = Applist.totalApps (Applist.stats h now apps) /\
  Applist.uniqueAuthorities (Applist.statsAtClock h clock apps)
    = Applist.uniqueAuthorities (Applist.stats h now apps).
Proof. split; reflexivity. Qed.

End MoreStatsFacts.

(** X10.  No counter exceeds the number of records, and the number of
    unique authorities is zero exactly when there is no record. *)
Theorem stats_within_total (h : Host) (now : Z) (apps : list Applist.ApplicationRecord) :
  Applist.uniqueAuthorities (Applist.stats h now apps)
    <= Applist.totalApps (Applist.stats h now apps) /\
  Applist.recentlyCreated (Applist.stats h now apps)
    <= Applist.totalApps (Applist.stats h now apps) /\
  Applist.soonExpiring (Applist.stats h now apps)
    <= Applist.totalApps (Applist.stats h now apps) /\
  (Applist.uniqueAuthorities (Applist.stats h now apps) = 0 <-> apps = []).
Proof.
  cbn [Applist.stats Applist.uniqueAuthorities Applist.recentlyCreated
       Applist.soonExpiring Applist.totalApps].
  split; [|split; [|split]].
  - etransitivity; [apply of_array_length_le|]. rewrite List.length_map. reflexivity.
  - apply List.filter_length_le.
  - apply List.filter_length_le.
  - unfold JsSet.size. rewrite List.length_zero_iff_nil, of_array_nil_iff.
    split; [apply List.map_eq_nil | intros ->; reflexivity].
Qed.

(** X11.  What of the statistics does not depend on the order of the
    records: the total and the number of unique authorities, whatever the
    clock reads at each callback; and all four counters when the clock
    stands still while they are computed.  (With a clock that advances, a
    record at the thirty-day boundary is counted or not according to its
    place, see [stats_advancing_clock].) *)
Theorem stats_order_independent
    (h : Host) (clock clock' : nat -> Z) (apps apps' : list Applist.ApplicationRecord) :
  Permutation apps apps' ->
  Applist.totalApps (Applist.statsAtClock h clock apps)
    = Applist.totalApps (Applist.statsAtClock h clock' apps') /\
  Applist.uniqueAuthorities (Applist.statsAtClock h clock apps)
    = Applist.uniqueAuthorities (Applist.statsAtClock h clock' apps') /\
  forall now, (forall k, clock k = now) -> (forall k, clock' k = now) ->
    Applist.statsAtClock h clock apps = Applist.statsAtClock h clock' apps'.
Proof.
  intros Hperm.
  assert (Htotal : List.length apps = List.length apps')
    by (apply Permutation_length, Hperm).
  assert (Hunique :
            JsSet.size (JsSet.of_array
              (List.map (fun app => Applist.getAuthority (Applist.names app)) apps))
            = JsSet.size (JsSet.of_array
              (List.map (fun app => Applist.getAuthority (Applist.names app)) apps'))).
  { rewrite !of_array_size. f_equal. apply set_eq. intros y.
    rewrite !elem_of_list_to_set, !list_elem_of_In.
    split; apply Permutation_in; [|symmetry];
      apply Permutation_map, Hperm. }
  split; [exact Htotal|]. split; [exact Hunique|].
  intros now Hclock Hclock'.
  rewrite (statsAtClock_constant h clock now apps Hclock),
          (statsAtClock_constant h clock' now apps' Hclock').
  unfold Applist.stats. f_equal.
  - exact Htotal.
  - exact Hunique.
  - apply Permutation_length, filter_perm, Hperm.
  - apply Permutation_length, filter_perm, Hperm.
Qed.

(** X11, witness: two sample records in both orders, the clock advancing
    by a millisecond from one callback to the next. *)
Lemma stats_order_independent_witness :
  Applist.totalApps
    (Applist.statsAtClock Applist.utcHost (fun k => Applist.sampleNow + Z.of_nat k)%Z
       [Samples.walletRecord; Samples.consoleRecord])
  = Applist.totalApps
      (Applist.statsAtClock Applist.utcHost (fun k => Applist.sampleNow + Z.of_nat k)%Z
         [Samples.consoleRecord; Samples.walletRecord]) /\
  Applist.uniqueAuthorities
    (Applist.statsAtClock Applist.utcHost (fun k => Applist.sampleNow + Z.of_nat k)%Z
       [Samples.walletRecord; Samples.consoleRecord])
  = Applist.uniqueAuthorities
      (Applist.statsAtClock Applist.utcHost (fun k => Applist.sampleNow + Z.of_nat k)%Z
         [Samples.consoleRecord; Samples.walletRecord]).
Proof.
  destruct (stats_order_independent Applist.utcHost
              (fun k => Applist.sampleNow + Z.of_nat k)%Z
              (fun k => Applist.sampleNow + Z.of_nat k)%Z
              [Samples.walletRecord; Samples.consoleRecord]
              [Samples.consoleRecord; Samples.walletRecord])
    as (Htotal & Hunique & _); [apply perm_swap|].
  split; [exact Htotal|exact Hunique].
Defined.

(** With a clock that advances by a millisecond from one callback to the
    next, the record created exactly thirty days before [sampleNow] is
    counted as recent when it comes first and not when it comes second. *)
Example stats_advancing_clock :
  Applist.recentlyCreated
    (Applist.statsAtClock Applist.utcHost (fun k => Applist.sampleNow - 1 + Z.of_nat k)%Z
       [Applist.bareRecord; Applist.futureRecord]) = 2 /\
  Applist.recentlyCreated
    (Applist.statsAtClock Applist.utcHost (fun k => Applist.sampleNow - 1 + Z.of_nat k)%Z
       [Applist.futureRecord; Applist.bareRecord]) = 1.
Proof. split; reflexivity. Qed.

(* ===================================================================== *)
(** ** Further properties: fetch lifecycle                                *)
(* ===================================================================== *)

(** X13.  [fetchApps] either keeps the record list and logs one error, or
    stores the [appDeploymentRecords] field of the [data] object of a
    resolved response and logs nothing; there is no third way. *)
Theorem fetchApps_keeps_or_replaces (o : Applist.AxiosOutcome) (st : Applist.ListState) :
  let st' := fst (Applist.fetchApps o st) in
  (Applist.apps st' = Applist.apps st /\
   Applist.console st' = Applist.console st ++ ["Error: Failed to fetch apps"]) \/
  (exists body data records,
     o = Applist.AxiosResolved body /\
     JsValue.get body "data" = Normal data /\
     JsValue.get data "appDeploymentRecords" = Normal records /\
     Applist.apps st' = records /\
     Applist.console st' = Applist.console st).
Proof.
  cbv zeta. destruct o as [|body]; [left; split; reflexivity|].
  unfold Applist.fetchApps, Eff.bind, Eff.try_finally, Eff.try_catch, Eff.eval.
  cbn. destruct (JsValue.get body "data") as [data|msg] eqn:Hdata; cbn;
    [|left; split; reflexivity].
  destruct (JsValue.get data "appDeploymentRecords") as [records|msg] eqn:Hrecords;
    cbn; [|left; split; reflexivity].
  right. exists body, data, records. auto.
Qed.

(** X14.  [fetchDeployments] replaces the deployments only by the records
    of a response that parsed, carries no truthy [errors] field and has a
    [data] object; in every other case the deployments are kept. *)
Theorem fetchDeployments_keeps_or_replaces
    (o : AppPage.FetchOutcome) (st : AppPage.PageState) :
  let st' := fst (AppPage.fetchDeployments o st) in
  AppPage.deployments st' = AppPage.deployments st \/
  (exists body errors data records,
     o = AppPage.JsonResolved body /\
     JsValue.get body "errors" = Normal errors /\
     JsValue.truthy errors = false /\
     JsValue.get body "data" = Normal data /\
     JsValue.get data "appDeploymentRecords" = Normal records /\
     AppPage.deployments st' = records /\
     AppPage.console st' = AppPage.console st).
Proof.
  cbv zeta. destruct o as [| |body]; try (left; reflexivity).
  unfold AppPage.fetchDeployments, Eff.bind, Eff.try_finally, Eff.try_catch, Eff.eval.
  cbn. destruct (JsValue.get body "errors") as [errors|msg] eqn:Herrors; cbn;
    [|left; reflexivity].
  destruct (JsValue.truthy errors) eqn:Htruthy; cbn; [left; reflexivity|].
  destruct (JsValue.get body "data") as [data|msg] eqn:Hdata; cbn;
    [|left; reflexivity].
  destruct (JsValue.get data "appDeploymentRecords") as [records|msg] eqn:Hrecords;
    cbn; [|left; reflexivity].
  right. exists body, errors, data, records. auto 10.
Qed.

(** X25, witness: the sample error payload. *)
Lemma fetchDeployments_error_payload_witness :
  AppPage.fetchDeployments (AppPage.JsonResolved Applist.errorPayload)
    AppPage.initialPageState =
    ({| AppPage.deployments := VArray []; AppPage.isLoading := false;
        AppPage.console := [] ++ ["GraphQL Errors:"] ++ ["Error fetching deployments:"] |},
     Normal tt).
Proof.
  apply (fetchDeployments_error_payload Applist.errorPayload
           (VArray [VObject [("message", VString "resolver failed")]])
           AppPage.initialPageState); reflexivity.
Defined.

(* ===================================================================== *)
(** ** Further properties: URL list and probes                            *)
(* ===================================================================== *)

Section SplitFacts.
Variable sep : ascii.

Lemma join_cons (x y : string) (l : list string) :
  JsText.join (String sep "") (x :: y :: l)
  = x +:+ String sep "" +:+ JsText.join (String sep "") (y :: l).
Proof. reflexivity. Qed.

(** Joining the segments of a split with the separator gives the text
    back. *)
Lemma join_split (s : string) :
  JsText.join (String sep "") (Js.split sep s) = s.
Proof.
  induction s as [|c s IH]; [reflexivity|].
  cbn [Js.split].
  destruct (Js.split sep s) as [|p ps] eqn:Hs;
    [exfalso; exact (split_not_nil _ _ Hs)|].
  destruct (Ascii.eqb_spec c sep) as [->|Hne].
  - rewrite join_cons, IH. reflexivity.
  - destruct ps as [|q ps].
    + cbn in IH |- *. rewrite IH. reflexivity.
    + rewrite join_cons in IH |- *. rewrite <- IH. reflexivity.
Qed.

(** No segment holds the separator. *)
Lemma split_segments_clean (s : string) :
  Forall (fun segment => Js.includes segment (String sep "") = false) (Js.split sep s).
Proof.
  induction s as [|c s IH]; [repeat constructor|].
  cbn [Js.split]. destruct (Ascii.eqb_spec c sep) as [->|Hne].
  - constructor; [reflexivity|exact IH].
  - destruct (Js.split sep s) as [|p ps]; [repeat constructor|].
    + cbn. destruct (Ascii.ascii_dec sep c); [congruence|reflexivity].
    + inversion IH as [|? ? Hp Hps]; subst. constructor; [|exact Hps].
      cbn. destruct (Ascii.ascii_dec sep c); [congruence|exact Hp].
Qed.

End SplitFacts.

Section EndpointFacts.
Variable network : string -> CheckUrlRoute.HeadOutcome.

(** The body the endpoint answers with is an object, with or without
    [isAvailable]: reading the field never throws. *)
Lemma served_readable : AppPage.answersReadable (AppPage.served network).
Proof.
  intros i url data. unfold AppPage.served, CheckUrlRoute.GET,
    CheckUrlRoute.fetch_head, Eff.try_catch, Eff.bind.
  destruct (Js.truthy url).
  - destruct (network url) as [|ok]; cbn; intros [= <-]; eexists; reflexivity.
  - cbn. intros [= <-]. eexists. reflexivity.
Qed.





End EndpointFacts.



(** X15, witness: the deployment with an empty segment, probed through
    the endpoint, whose answers are readable. *)
Lemma checkUrls_resolves_every_url_witness :
  AppPage.answersReadable (AppPage.served AppPage.sampleNetwork) /\
  exists st,
    AppPage.checkUrls (AppPage.served AppPage.sampleNetwork) AppPage.gapUrlDeployment
      AppPage.initialUrlListState = (st, Normal tt) /\
    AppPage.unmounted st = false /\
    AppPage.requests st = Js.split "," "http://a,,http://b" /\
    List.head (AppPage.updates st)
      = Some (AppPage.initialStatuses (Js.split "," "http://a,,http://b")) /\
    List.length (AppPage.updates st)
      = S (List.length (Js.split "," "http://a,,http://b")) /\
    dom (AppPage.urlStatuses st) = list_to_set (Js.split "," "http://a,,http://b") /\
    forall u, u ∈ Js.split "," "http://a,,http://b" ->
      exists s, AppPage.urlStatuses st !! u = Some s /\ AppPage.terminal s = true.
Proof.
  split; [exact (served_readable AppPage.sampleNetwork)|].
  apply (checkUrls_resolves_every_url (AppPage.served AppPage.sampleNetwork)
           AppPage.gapUrlDeployment
           {| AppPage.key := "url"; AppPage.value_string := Some "http://a,,http://b" |}
           "http://a,,http://b");
    [exact (served_readable AppPage.sampleNetwork)|reflexivity|reflexivity|discriminate].
Defined.

Section ViewFacts.
Variable server : nat -> string -> AppPage.FetchOutcome.

Lemma UrlList_items
    (deployment : AppPage.DeploymentRecord) (attr : AppPage.Attribute) (text : string)
    (statuses : gmap string AppPage.UrlStatus) :
  AppPage.urlAttribute deployment = Some attr ->
  AppPage.value_string attr = Some text ->
  text <> "" ->
  AppPage.UrlList deployment statuses =
    AppPage.UrlItems (List.map (fun url => (AppPage.indicator statuses url, url))
                               (Js.split "," text)).
Proof.
  intros Hattr Hval Hne. unfold AppPage.UrlList. rewrite Hattr, Hval.
  unfold Js.truthy. destruct (String.eqb_spec text ""); [contradiction|reflexivity].
Qed.

(** X17.  What [UrlList] draws for a non-empty "url" attribute, one item
    per segment in the order of the attribute: a red dot for every URL as
    long as the status map is empty (before [checkUrls] has set it), a
    spinner for every URL once the map is initialised, and, when no
    answer is the JSON value [null] (every parsed body has a readable
    [isAvailable]), a green or red dot, never a spinner, for every URL
    when [checkUrls] has finished, the component being still mounted. *)
Theorem UrlList_phases
    (deployment : AppPage.DeploymentRecord) (attr : AppPage.Attribute) (text : string) :
  AppPage.answersReadable server ->
  AppPage.urlAttribute deployment = Some attr ->
  AppPage.value_string attr = Some text ->
  text <> "" ->
  AppPage.UrlList deployment ∅ =
    AppPage.UrlItems (List.map (fun url => (AppPage.Red, url)) (Js.split "," text)) /\
  AppPage.UrlList deployment (AppPage.initialStatuses (Js.split "," text)) =
    AppPage.UrlItems (List.map (fun url => (AppPage.Spinner, url)) (Js.split "," text)) /\
  exists st items,
    AppPage.checkUrls server deployment AppPage.initialUrlListState = (st, Normal tt) /\
    AppPage.unmounted st = false /\
    AppPage.UrlList deployment (AppPage.urlStatuses st) = AppPage.UrlItems items /\
    List.map snd items = Js.split "," text /\
    Forall (fun item => fst item = AppPage.Green \/ fst item = AppPage.Red) items.
Proof.
  intros Hread Hattr Hval Hne.
  rewrite !(UrlList_items deployment attr text) by assumption.
  split; [|split].
  - reflexivity.
  - f_equal. apply List.map_ext_in. intros u Hu.
    destruct (initialStatuses_spec (Js.split "," text)) as [Hdom Hval0].
    assert (Hsome : is_Some (AppPage.initialStatuses (Js.split "," text) !! u)).
    { apply elem_of_dom. rewrite Hdom. apply elem_of_list_to_set.
      apply list_elem_of_In, Hu. }
    destruct Hsome as [s Hs]. unfold AppPage.indicator. rewrite Hs.
    rewrite (Hval0 _ _ Hs). reflexivity.
  - destruct (checkUrls_run server deployment attr text Hread Hattr Hval Hne)
      as (st & later & Hrun & Hmnt & _ & _ & _ & _ & Hterm).
    exists st. eexists. split; [exact Hrun|]. split; [exact Hmnt|].
    split; [apply (UrlList_items deployment attr text); assumption|]. split.
    + rewrite List.map_map. cbn. apply List.map_id.
    + apply List.Forall_forall. intros item Hitem.
      apply List.in_map_iff in Hitem as (u & <- & Hu). cbn.
      destruct (Hterm u) as (s & Hs & Hts); [apply list_elem_of_In, Hu|].
      unfold AppPage.indicator. rewrite Hs. destruct s; [discriminate|auto|auto].
Qed.

(** X18.  The probes sent are the segments of the attribute: joined with
    commas they give the attribute back, none of them holds a comma, and
    nothing of the attribute is left out or altered. *)
Theorem probed_urls_are_the_attribute
    (deployment : AppPage.DeploymentRecord) (attr : AppPage.Attribute) (text : string) :
  AppPage.urlAttribute deployment = Some attr ->
  AppPage.value_string attr = Some text ->
  text <> "" ->
  exists st,
    AppPage.checkUrls server deployment AppPage.initialUrlListState = (st, Normal tt) /\
    JsText.join "," (AppPage.requests st) = text /\
    Forall (fun url => Js.includes url "," = false) (AppPage.requests st).
Proof.
  intros Hattr Hval Hne.
  destruct (checkUrls_requests server deployment attr text Hattr Hval Hne)
    as (st & Hrun & Hreq).
  exists st. split; [exact Hrun|]. rewrite Hreq. split.
  - apply (join_split ","%char).
  - apply (split_segments_clean ","%char).
Qed.

End ViewFacts.

(** X17, witness: the deployment with an empty segment, probed through
    the endpoint. *)
Lemma UrlList_phases_witness :
  AppPage.answersReadable (AppPage.served AppPage.sampleNetwork) /\
  AppPage.UrlList AppPage.gapUrlDeployment ∅ =
    AppPage.UrlItems
      (List.map (fun url => (AppPage.Red, url)) (Js.split "," "http://a,,http://b")) /\
  AppPage.UrlList AppPage.gapUrlDeployment
      (AppPage.initialStatuses (Js.split "," "http://a,,http://b")) =
    AppPage.UrlItems
      (List.map (fun url => (AppPage.Spinner, url)) (Js.split "," "http://a,,http://b")) /\
  exists st items,
    AppPage.checkUrls (AppPage.served AppPage.sampleNetwork) AppPage.gapUrlDeployment
      AppPage.initialUrlListState = (st, Normal tt) /\
    AppPage.unmounted st = false /\
    AppPage.UrlList AppPage.gapUrlDeployment (AppPage.urlStatuses st)
      = AppPage.UrlItems items /\
    List.map snd items = Js.split "," "http://a,,http://b" /\
    Forall (fun item => fst item = AppPage.Green \/ fst item = AppPage.Red) items.
Proof.
  split; [exact (served_readable AppPage.sampleNetwork)|].
  apply (UrlList_phases (AppPage.served AppPage.sampleNetwork) AppPage.gapUrlDeployment
           {| AppPage.key := "url"; AppPage.value_string := Some "http://a,,http://b" |}
           "http://a,,http://b");
    [exact (served_readable AppPage.sampleNetwork)|reflexivity|reflexivity|discriminate].
Defined.

(** X18, witness. *)
Lemma probed_urls_are_the_attribute_witness :
  exists st,
    AppPage.checkUrls (AppPage.served AppPage.sampleNetwork) AppPage.gapUrlDeployment
      AppPage.initialUrlListState = (st, Normal tt) /\
    JsText.join "," (AppPage.requests st) = "http://a,,http://b" /\
    Forall (fun url => Js.includes url "," = false) (AppPage.requests st).
Proof.
  apply (probed_urls_are_the_attribute (AppPage.served AppPage.sampleNetwork)
           AppPage.gapUrlDeployment
           {| AppPage.key := "url"; AppPage.value_string := Some "http://a,,http://b" |}
           "http://a,,http://b"); [reflexivity|reflexivity|discriminate].
Defined.

(* ===================================================================== *)
(** ** Further properties: the detail page and the link to it             *)
(* ===================================================================== *)

Section FallbackFacts.

Lemma or_else_truthy (x : option string) (d : string) :
  Js.truthy d = true -> Js.truthy (Js.or_else x d) = true.
Proof.
  intros Hd. unfold Js.or_else. destruct x as [s|]; [|exact Hd].
  destruct (Js.truthy s) eqn:Hs; [exact Hs|exact Hd].
Qed.

Lemma or_else_some (s d : string) :
  Js.truthy s = true -> Js.or_else (Some s) d = s.
Proof. intros Hs. unfold Js.or_else. rewrite Hs. reflexivity. Qed.

Lemma or_else_some_empty (s : string) : Js.or_else (Some s) "" = s.
Proof.
  unfold Js.or_else, Js.truthy.
  destruct (String.eqb_spec s "") as [->|]; reflexivity.
Qed.

End FallbackFacts.

(** X19.  Whatever the search parameters are, the repository cell of the
    detail page is a link: the parameter when it is present and not
    empty, and otherwise a link with the text and the address "Unknown".
    The "Unknown" item, the other branch of the cell, is never drawn. *)
Theorem repository_cell_is_a_link
    (h : Host) (toLocaleString : option Z -> string) (get : string -> option string) :
  exists label,
    AppPageView.repositoryCell (AppPageView.appInfoOf h toLocaleString get)
      = AppPageView.InfoLink label label /\
    Js.truthy label = true /\
    label = match get "repository" with
            | Some (String c rest) => String c rest
            | Some EmptyString | None => "Unknown"
            end.
Proof.
  exists (Js.or_else (get "repository") "Unknown").
  assert (Ht : Js.truthy (Js.or_else (get "repository") "Unknown") = true)
    by (apply or_else_truthy; reflexivity).
  split; [|split; [exact Ht|]].
  - unfold AppPageView.repositoryCell. cbn [AppPageView.appInfoOf AppPageView.repository].
    rewrite Ht. reflexivity.
  - destruct (get "repository") as [[|c rest]|]; reflexivity.
Qed.

(** X20.  Following the "View Details" link of a card, the detail page
    shows the name, version and authority of the card and the encoded
    first owner; the link carries no repository, so the page shows the
    repository "Unknown" (as a link).  The owner line of a card with one
    owner is the owner of the page; for a record without owner the card
    shows nothing and the page the encoding of no bytes. *)
Theorem detail_page_shows_the_card
    (h : Host) (toLocaleString : option Z -> string) (app : Applist.ApplicationRecord) :
  let info := AppPageView.appInfoOf h toLocaleString
                (AppPageView.searchParamsOf (ApplistView.linkQuery app)) in
  AppPageView.name info = Applist.displayName app /\
  AppPageView.version info = ApplistView.displayVersion app /\
  AppPageView.authority info = Applist.getAuthority (Applist.names app) /\
  AppPageView.owner info = Applist.hexToBech32 (Applist.firstOwner app) /\
  AppPageView.repository info = "Unknown" /\
  AppPageView.repositoryCell info = AppPageView.InfoLink "Unknown" "Unknown" /\
  (forall o, Applist.owners app = [o] ->
     ApplistView.ownersDisplay app = AppPageView.owner info) /\
  (Applist.owners app = [] ->
     ApplistView.ownersDisplay app = "" /\ AppPageView.owner info = "laconic16d9tz8").
Proof.
  cbv zeta.
  cbn [AppPageView.appInfoOf AppPageView.name AppPageView.version AppPageView.authority
       AppPageView.owner AppPageView.repository].
  change (AppPageView.searchParamsOf (ApplistView.linkQuery app) "name")
    with (Some (Applist.displayName app)).
  change (AppPageView.searchParamsOf (ApplistView.linkQuery app) "version")
    with (Some (ApplistView.displayVersion app)).
  change (AppPageView.searchParamsOf (ApplistView.linkQuery app) "authority")
    with (Some (Applist.getAuthority (Applist.names app))).
  change (AppPageView.searchParamsOf (ApplistView.linkQuery app) "owner")
    with (Some (Applist.hexToBech32 (Applist.firstOwner app))).
  change (AppPageView.searchParamsOf (ApplistView.linkQuery app) "repository")
    with (@None string).
  assert (Hauth : Js.truthy (Applist.getAuthority (Applist.names app)) = true).
  { destruct (getAuthority_cases (Applist.names app))
      as [-> | (seg & tail & _ & Ht & _ & ->)]; [reflexivity|exact Ht]. }
  rewrite or_else_some_empty.
  rewrite !or_else_some;
    try exact Hauth; try (apply or_else_truthy; reflexivity).
  repeat split.
  - intros o Ho. unfold ApplistView.ownersDisplay, Applist.firstOwner.
    rewrite Ho. change (nth_error [o] 0) with (Some o).
    rewrite or_else_some_empty. reflexivity.
  - unfold ApplistView.ownersDisplay. rewrite H. reflexivity.
  - unfold Applist.firstOwner. rewrite H. reflexivity.
Qed.

(* ===================================================================== *)
(** ** Further properties: address codec                                  *)
(* ===================================================================== *)

Section CodecFacts.
Local Open Scope Z_scope.

Lemma land_31_bounds (x : Z) : 0 <= Z.land x 31 < 32.
Proof.
  change 31 with (Z.ones 5). rewrite Z.land_ones by lia.
  apply Z.mod_pos_bound. lia.
Qed.

Lemma drain_bounds (fuel : nat) (value bits : Z) (result : list Z) :
  Forall (fun w => 0 <= w < 32) result ->
  Forall (fun w => 0 <= w < 32) (snd (Bech32.convert_drain fuel value bits 5 31 result)).
Proof.
  revert bits result. induction fuel as [|fuel IH]; intros bits result Hres; cbn.
  - exact Hres.
  - destruct (bits >=? 5); [|exact Hres].
    apply IH. apply Forall_app. split; [exact Hres|].
    constructor; [apply land_31_bounds|constructor].
Qed.

(** One byte more: 8 bits come in, whole groups of 5 go out. *)
Lemma drain_step (value bits : Z) (result : list Z) :
  0 <= bits < 5 ->
  let out := Bech32.convert_drain (Z.to_nat (bits + 8)) value (bits + 8) 5 31 result in
  0 <= fst out < 5 /\
  5 * Z.of_nat (List.length (snd out)) + fst out
    = 5 * Z.of_nat (List.length result) + bits + 8.
Proof.
  intros Hbits. cbv zeta.
  remember (Z.to_nat (bits + 8)) as fuel eqn:Hfuel.
  destruct fuel as [|[|[|fuel]]]; try lia.
  cbn [Bech32.convert_drain]. rewrite !Z.geb_leb.
  destruct (Z.leb_spec 5 (bits + 8)); [|lia].
  destruct (Z.leb_spec 5 (bits + 8 - 5)).
  - destruct (Z.leb_spec 5 (bits + 8 - 5 - 5)); [lia|].
    cbn [fst snd]. rewrite !length_app. cbn [List.length]. lia.
  - cbn [fst snd]. rewrite !length_app. cbn [List.length]. lia.
Qed.

Lemma convert_state (data : list Z) (st : Z * Z * list Z) :
  let step := fun (st : Z * Z * list Z) (byte : Z) =>
    let '(value, bits, result) := st in
    let value := Z.lor (Int32.shl value 8) byte in
    let bits := bits + 8 in
    let '(bits, result) :=
      Bech32.convert_drain (Z.to_nat bits) value bits 5 31 result in
    (value, bits, result) in
  0 <= snd (fst st) < 5 ->
  Forall (fun w => 0 <= w < 32) (snd st) ->
  let st' := fold_left step data st in
  0 <= snd (fst st') < 5 /\
  Forall (fun w => 0 <= w < 32) (snd st') /\
  5 * Z.of_nat (List.length (snd st')) + snd (fst st')
    = 5 * Z.of_nat (List.length (snd st)) + snd (fst st)
      + 8 * Z.of_nat (List.length data).
Proof.
  cbv zeta. revert st. induction data as [|byte data IH]; intros [[value bits] result];
    cbn [fst snd]; intros Hbits Hres.
  - cbn. repeat split; try lia. exact Hres.
  - cbn [fold_left List.length].
    pose proof (drain_step (Z.lor (Int32.shl value 8) byte) bits result Hbits) as Hstep.
    pose proof (drain_bounds (Z.to_nat (bits + 8)) (Z.lor (Int32.shl value 8) byte)
                  (bits + 8) result Hres) as Hbound.
    cbv zeta in Hstep.
    destruct (Bech32.convert_drain (Z.to_nat (bits + 8))
                (Z.lor (Int32.shl value 8) byte) (bits + 8) 5 31 result)
      as [bits' result'] eqn:Hdrain.
    cbn [fst snd] in Hstep, Hbound. destruct Hstep as [Hbits' Hlen].
    specialize (IH (Z.lor (Int32.shl value 8) byte, bits', result') Hbits' Hbound).
    cbn [fst snd] in IH. destruct IH as (H1 & H2 & H3).
    repeat split; try assumption; try lia.
Qed.

(** The words of [toWords]: each fits in 5 bits, and there are as many as
    it takes to hold 8 bits per byte. *)
Lemma toWords_spec (bytes : list Z) :
  Forall (fun w => 0 <= w < 32) (Bech32.toWords bytes) /\
  8 * Z.of_nat (List.length bytes) <= 5 * Z.of_nat (List.length (Bech32.toWords bytes))
    < 8 * Z.of_nat (List.length bytes) + 5.
Proof.
  unfold Bech32.toWords, Bech32.convert_pad.
  change (Int32.shl 1 5 - 1) with 31.
  pose proof (convert_state bytes (0, 0, [])) as Hst. cbv zeta in Hst.
  cbn [fst snd List.length] in Hst.
  destruct (fold_left _ bytes (0, 0, [])) as [[value bits] result].
  cbn [fst snd] in Hst.
  destruct Hst as (Hbits & Hres & Hlen); [lia|constructor|].
  destruct (0 <? bits) eqn:Hpos.
  - apply Z.ltb_lt in Hpos. split.
    + apply Forall_app. split; [exact Hres|].
      constructor; [apply land_31_bounds|constructor].
    + rewrite length_app. cbn. lia.
  - apply Z.ltb_ge in Hpos. split; [exact Hres|lia].
Qed.

End CodecFacts.

Section EncodeFacts.

Lemma length_append (a b : string) :
  String.length (a +:+ b) = String.length a + String.length b.
Proof.
  induction a as [|x a IH]; [reflexivity|].
  change (S (String.length (a +:+ b)) = S (String.length a + String.length b)).
  rewrite IH. reflexivity.
Qed.

Lemma alphabet_get (n : nat) :
  n < 32 -> exists c, String.get n Bech32.ALPHABET = Some c.
Proof.
  intros Hn.
  do 32 (destruct n as [|n]; [eexists; reflexivity|]). lia.
Qed.

(** Every 5-bit word has its character. *)
Lemma charAt_alphabet (w : Z) :
  (0 <= w < 32)%Z -> String.length (Bech32.charAt Bech32.ALPHABET w) = 1.
Proof.
  intros Hw. unfold Bech32.charAt.
  destruct (Z.ltb_spec w 0); [lia|].
  destruct (alphabet_get (Z.to_nat w)) as [c ->]; [lia|reflexivity].
Qed.

Lemma encode_words_ok (words : list Z) (chk : Z) (result : string) :
  Forall (fun w => (0 <= w < 32)%Z) words ->
  exists chk' data,
    Bech32.encode_words words chk result = Normal (chk', result +:+ data) /\
    String.length data = List.length words.
Proof.
  intros Hwords. revert chk result.
  induction Hwords as [|w words Hw _ IH]; intros chk result.
  - exists chk, "". split; [|reflexivity]. cbn. rewrite append_empty_r. reflexivity.
  - cbn [Bech32.encode_words].
    assert (Hsar : (Int32.sar w 5 =? 0)%Z = true).
    { apply Z.eqb_eq. unfold Int32.sar. rewrite Z.shiftr_div_pow2 by lia.
      apply Z.div_small. change (2 ^ 5)%Z with 32%Z. lia. }
    rewrite Hsar.
    destruct (IH (Z.lxor (Bech32.polymodStep chk) w)
                 (result +:+ Bech32.charAt Bech32.ALPHABET w)) as (chk' & data & -> & Hlen).
    exists chk', (Bech32.charAt Bech32.ALPHABET w +:+ data). split.
    + rewrite append_assoc. reflexivity.
    + rewrite length_append, charAt_alphabet, Hlen by exact Hw. reflexivity.
Qed.

(** Appending one character per element. *)
Lemma fold_append_chars (f : Z -> string) (l : list Z) (result : string) :
  (forall i, String.length (f i) = 1) ->
  exists tail,
    fold_left (fun text i => text +:+ f i) l result = result +:+ tail /\
    String.length tail = List.length l.
Proof.
  intros Hf. revert result. induction l as [|i l IH]; intros result.
  - exists "". split; [cbn; rewrite append_empty_r; reflexivity|reflexivity].
  - cbn [fold_left]. destruct (IH (result +:+ f i)) as (tail & -> & Hlen).
    exists (f i +:+ tail). split; [apply append_assoc|].
    rewrite length_append, Hf, Hlen. reflexivity.
Qed.

Lemma prefixChk_laconic : exists chk, Bech32.prefixChk "laconic" = Normal chk.
Proof. eexists. vm_compute. reflexivity. Qed.

(** [encode] with the prefix "laconic": up to 76 words are encoded, the
    data characters followed by six checksum characters; more words make
    it throw. *)
Lemma encode_laconic (words : list Z) :
  Forall (fun w => (0 <= w < 32)%Z) words ->
  if (List.length words <=? 76)%nat
  then exists payload,
         Bech32.encode "laconic" words = Normal ("laconic1" +:+ payload) /\
         String.length payload = List.length words + 6
  else Bech32.encode "laconic" words = Throws "Exceeds length limit".
Proof.
  intros Hwords. unfold Bech32.encode. cbv zeta.
  change (Z.of_nat (String.length "laconic")) with 7%Z.
  change (Js.toLowerCase "laconic") with "laconic".
  destruct prefixChk_laconic as [chk ->].
  destruct (encode_words_ok words chk ("laconic" +:+ "1") Hwords)
    as (chk' & data & -> & Hlen).
  generalize (Z.lxor (Nat.iter 6 Bech32.polymodStep chk') 1). intros final.
  destruct (fold_append_chars
              (fun i => Bech32.charAt Bech32.ALPHABET
                          (Z.land (Int32.sar final ((5 - i) * 5)) 31))
              [0; 1; 2; 3; 4; 5]%Z (("laconic" +:+ "1") +:+ data))
    as (tail & Htail & Htlen).
  { intros i. apply charAt_alphabet, land_31_bounds. }
  cbv beta in Htail. rewrite Htail. clear Htail.
  destruct (Nat.leb_spec (List.length words) 76) as [Hle|Hgt].
  - destruct (Z.ltb_spec 90 (7 + 7 + Z.of_nat (List.length words))) as [|_]; [lia|].
    exists (data +:+ tail). split.
    + rewrite append_assoc. reflexivity.
    + rewrite length_append, Hlen, Htlen. reflexivity.
  - destruct (Z.ltb_spec 90 (7 + 7 + Z.of_nat (List.length words))) as [_|]; [|lia].
    reflexivity.
Qed.

End EncodeFacts.

Section HexFacts.

(** Decoding reads pair after pair of a hexadecimal text, and goes on
    into what follows it. *)
Lemma from_hex_app (t : string) (s : string) :
  (Buffer.isHex s = true ->
   Buffer.from_hex (s +:+ t) = Buffer.from_hex s ++ Buffer.from_hex t) /\
  (forall a, Buffer.isHex (String a s) = true ->
   Buffer.from_hex (String a s +:+ t) = Buffer.from_hex (String a s) ++ Buffer.from_hex t).
Proof.
  induction s as [|b s [IH1 IH2]].
  - split; [reflexivity|]. intros a Ha. discriminate.
  - split; [intros Hs; apply IH2, Hs|].
    intros a Ha. cbn [Buffer.isHex] in Ha.
    change (String a (String b s) +:+ t) with (String a (String b (s +:+ t))).
    cbn [Buffer.from_hex].
    destruct (Buffer.unhex a) as [hi|]; [|discriminate].
    destruct (Buffer.unhex b) as [lo|]; [|discriminate].
    rewrite (IH1 Ha). reflexivity.
Qed.

(** Two characters at least per decoded byte. *)
Lemma from_hex_length (s : string) :
  (2 * List.length (Buffer.from_hex s) <= String.length s) /\
  (forall a, 2 * List.length (Buffer.from_hex (String a s)) <= S (String.length s)).
Proof.
  induction s as [|b s [IH1 IH2]].
  - split; [cbn; lia|]. intros a. cbn. lia.
  - split; [apply IH2|]. intros a. cbn [Buffer.from_hex String.length].
    destruct (Buffer.unhex a); [|cbn; lia].
    destruct (Buffer.unhex b); [|cbn; lia].
    cbn [List.length]. lia.
Qed.

(** Text at whose first character decoding stops holds no byte. *)
Lemma endsData_from_hex (rest : string) :
  Buffer.endsData rest = true -> Buffer.from_hex rest = [].
Proof.
  destruct rest as [|c [|d rest]]; [reflexivity|reflexivity|].
  cbn [Buffer.endsData Buffer.from_hex]. unfold Buffer.stops.
  destruct (Buffer.unhex c); [|reflexivity].
  rewrite andb_false_r. discriminate.
Qed.

End HexFacts.

(** X21.  The codec encodes whatever decodes to at most 47 bytes: the
    result is "laconic1" followed by one character per 5 bits of the
    bytes (rounded up) and six checksum characters.  From 48 decoded
    bytes on, the encoder refuses the length and the argument is
    returned as it is; that is the only way the argument comes back
    through the [catch] branch. *)
Theorem hexToBech32_encodes_up_to_47_bytes (hexAddress : string) :
  let n := List.length (Buffer.from_hex hexAddress) in
  if (n <=? 47)%nat
  then exists payload,
         Applist.hexToBech32 hexAddress = "laconic1" +:+ payload /\
         String.length payload = (8 * n + 4) / 5 + 6
  else Bech32.encode "laconic" (Bech32.toWords (Buffer.from_hex hexAddress))
         = Throws "Exceeds length limit" /\
       Applist.hexToBech32 hexAddress = hexAddress.
Proof.
  cbv zeta. unfold Applist.hexToBech32.
  destruct (toWords_spec (Buffer.from_hex hexAddress)) as [Hwords Hlen].
  pose proof (encode_laconic _ Hwords) as Henc.
  set (n := List.length (Buffer.from_hex hexAddress)) in *.
  set (words := Bech32.toWords (Buffer.from_hex hexAddress)) in *.
  destruct (Nat.leb_spec n 47) as [Hn|Hn].
  - destruct (Nat.leb_spec (List.length words) 76) as [_|Hgt]; [|lia].
    destruct Henc as (payload & -> & Hpayload).
    exists payload. split; [reflexivity|]. rewrite Hpayload. f_equal.
    apply Nat.div_unique with (r := (8 * n + 4 - 5 * List.length words)%nat); lia.
  - destruct (Nat.leb_spec (List.length words) 76) as [Hle|_]; [lia|].
    rewrite Henc. split; reflexivity.
Qed.

(** X22.  Text after a hexadecimal address is ignored without notice:
    when what follows a valid address of at most 47 bytes begins with a
    character at which decoding stops (a printable character other than
    a hexadecimal digit and a sign), the result is the encoding of the
    address alone. *)
Theorem hexToBech32_ignores_what_follows (address rest : string) :
  Buffer.isHex address = true ->
  Buffer.endsData rest = true ->
  String.length address <= 94 ->
  Applist.hexToBech32 (address +:+ rest) = Applist.hexToBech32 address.
Proof.
  intros Hhex Hends Hlen.
  pose proof (endsData_from_hex rest Hends) as Hrest.
  assert (Hbytes : Buffer.from_hex (address +:+ rest) = Buffer.from_hex address).
  { rewrite (proj1 (from_hex_app rest address) Hhex), Hrest. apply app_nil_r. }
  unfold Applist.hexToBech32. rewrite Hbytes.
  destruct (toWords_spec (Buffer.from_hex address)) as [Hwords Hwlen].
  pose proof (encode_laconic _ Hwords) as Henc.
  pose proof (proj1 (from_hex_length address)) as Hn.
  destruct (Nat.leb_spec (List.length (Bech32.toWords (Buffer.from_hex address))) 76)
    as [_|Hgt]; [|lia].
  destruct Henc as (payload & -> & _). reflexivity.
Qed.

(** X22, witness: an address followed by a remark. *)
Lemma hexToBech32_ignores_what_follows_witness :
  Applist.hexToBech32 ("751e76e8199196d454941c45d1b3a323f1433bd6" +:+ "(old)")
  = Applist.hexToBech32 "751e76e8199196d454941c45d1b3a323f1433bd6".
Proof.
  apply (hexToBech32_ignores_what_follows
           "751e76e8199196d454941c45d1b3a323f1433bd6" "(old)");
    [reflexivity|reflexivity|cbn; lia].
Defined.

Section NumberFacts.
Local Open Scope Z_scope.

Lemma number_snoc (base : Z) (digits : list Z) (d : Z) :
  CodecView.number base (digits ++ [d]) = CodecView.number base digits * base + d.
Proof. unfold CodecView.number. rewrite fold_left_app. reflexivity. Qed.

Lemma number_nonneg (base : Z) (digits : list Z) :
  0 <= base ->
  Forall (fun d => 0 <= d) digits ->
  0 <= CodecView.number base digits.
Proof.
  intros Hbase. induction digits as [|d digits IH] using rev_ind; intros Hd.
  - cbn. lia.
  - apply Forall_app in Hd as [Hds Hd]. inversion Hd; subst.
    rewrite number_snoc. specialize (IH Hds). nia.
Qed.

(** Digit sequences of one length that write the same number are equal. *)
Lemma number_inj (base : Z) (l1 l2 : list Z) :
  List.length l1 = List.length l2 ->
  Forall (fun d => 0 <= d < base) l1 ->
  Forall (fun d => 0 <= d < base) l2 ->
  CodecView.number base l1 = CodecView.number base l2 ->
  l1 = l2.
Proof.
  revert l2. induction l1 as [|d1 l1 IH] using rev_ind; intros l2 Hlen H1 H2 Heq.
  - destruct l2; [reflexivity|discriminate].
  - destruct l2 as [|d2 l2 _] using rev_ind.
    + rewrite length_app in Hlen. cbn in Hlen. lia.
    + rewrite !length_app in Hlen. cbn in Hlen.
      apply Forall_app in H1 as [H1 Hd1]. apply Forall_app in H2 as [H2 Hd2].
      inversion Hd1; subst. inversion Hd2; subst.
      rewrite !number_snoc in Heq.
      assert (Hd : d1 = d2).
      { assert (Hm : (CodecView.number base l1 * base + d1) mod base
                     = (CodecView.number base l2 * base + d2) mod base)
          by (rewrite Heq; reflexivity).
        rewrite !(Z.add_comm (_ * base)), !Z.mod_add, !Z.mod_small in Hm by lia.
        exact Hm. }
      subst d2. f_equal. apply IH; try assumption; try lia.
      assert (Hb : base <> 0) by lia. nia.
Qed.

Lemma wrap_mod (z : Z) : exists q, Int32.wrap z = z - 2 ^ 32 * q.
Proof.
  unfold Int32.wrap. exists ((z + 2 ^ 31) / 2 ^ 32).
  pose proof (Z.div_mod (z + 2 ^ 31) (2 ^ 32)). lia.
Qed.

Lemma lor_low_byte (m byte : Z) :
  0 <= byte < 256 -> Z.lor (256 * m) byte = 256 * m + byte.
Proof.
  intros Hbyte.
  assert (Hland : Z.land (256 * m) byte = 0).
  { rewrite <- (Z.mod_small byte 256) by lia.
    change 256 with (2 ^ 8) at 2. rewrite <- Z.land_ones by lia.
    rewrite (Z.land_comm byte), Z.land_assoc, Z.land_ones by lia.
    change (2 ^ 8) with 256. rewrite Z.mul_comm, Z.mod_mul by lia.
    apply Z.land_0_l. }
  rewrite <- Z.lxor_lor by exact Hland. symmetry.
  apply Z.add_nocarry_lxor, Hland.
Qed.

End NumberFacts.

Section ConvertNumber.
Local Open Scope Z_scope.

Lemma word_at (v k : Z) : 0 <= k -> Z.land (Int32.sar v k) 31 = (v / 2 ^ k) mod 32.
Proof.
  intros Hk. unfold Int32.sar. rewrite Z.shiftr_div_pow2 by exact Hk.
  change 31 with (Z.ones 5). rewrite Z.land_ones by lia. reflexivity.
Qed.

(** The low bits of the accumulator after a byte came in. *)
Lemma low_bits (value byte bits : Z) :
  0 <= bits <= 24 ->
  0 <= byte < 256 ->
  (Z.lor (Int32.shl value 8) byte) mod 2 ^ (bits + 8)
  = (value mod 2 ^ bits) * 256 + byte.
Proof.
  intros Hbits Hbyte. unfold Int32.shl. rewrite Z.shiftl_mul_pow2 by lia.
  destruct (wrap_mod (value * 2 ^ 8)) as [q ->].
  assert (Hp : 0 < 2 ^ bits) by (apply Z.pow_pos_nonneg; lia).
  replace (value * 2 ^ 8 - 2 ^ 32 * q)
    with (256 * (value + (- (2 ^ (24 - bits) * q)) * 2 ^ bits)).
  2:{ replace (2 ^ 32) with (2 ^ (24 - bits) * 2 ^ bits * 256).
      - change (2 ^ 8) with 256. ring.
      - rewrite <- Z.pow_add_r by lia. replace (24 - bits + bits) with 24 by lia.
        reflexivity. }
  rewrite lor_low_byte by exact Hbyte.
  rewrite (Z.add_comm bits 8), Z.pow_add_r by lia. change (2 ^ 8) with 256.
  rewrite Z.rem_mul_r by lia.
  rewrite (Z.add_comm (256 * _) byte), (Z.mul_comm 256).
  rewrite Z.mod_add, Z.div_add, Z.mod_small, Z.div_small by lia.
  rewrite Z.add_0_l, Z.mod_add by lia. lia.
Qed.

(** Giving out words keeps the number that the words and the bits still
    held write together. *)
Lemma drain_number (fuel : nat) (value bits : Z) (result : list Z) :
  0 <= bits ->
  let out := Bech32.convert_drain fuel value bits 5 31 result in
  0 <= fst out /\
  CodecView.number 32 (snd out) * 2 ^ fst out + value mod 2 ^ fst out
  = CodecView.number 32 result * 2 ^ bits + value mod 2 ^ bits.
Proof.
  cbv zeta. revert bits result. induction fuel as [|fuel IH]; intros bits result Hbits.
  - cbn. split; [exact Hbits|reflexivity].
  - cbn [Bech32.convert_drain]. rewrite Z.geb_leb.
    destruct (Z.leb_spec 5 bits) as [Hge|Hlt]; [|cbn; split; [exact Hbits|reflexivity]].
    assert (Hk : exists k, bits = k + 5 /\ 0 <= k) by (exists (bits - 5); lia).
    destruct Hk as (k & -> & Hk). replace (k + 5 - 5) with k by lia.
    destruct (IH k (result ++ [Z.land (Int32.sar value k) 31])) as [Hout Heq];
      [exact Hk|].
    split; [exact Hout|]. rewrite Heq, number_snoc, word_at by exact Hk.
    rewrite Z.pow_add_r by lia. change (2 ^ 5) with 32.
    assert (Hp : 0 < 2 ^ k) by (apply Z.pow_pos_nonneg; lia).
    rewrite (Z.rem_mul_r value (2 ^ k) 32) by lia. ring.
Qed.

End ConvertNumber.

Section ToWordsNumber.
Local Open Scope Z_scope.

Lemma convert_number (data : list Z) (st : Z * Z * list Z) :
  let step := fun (st : Z * Z * list Z) (byte : Z) =>
    let '(value, bits, result) := st in
    let value := Z.lor (Int32.shl value 8) byte in
    let bits := bits + 8 in
    let '(bits, result) :=
      Bech32.convert_drain (Z.to_nat bits) value bits 5 31 result in
    (value, bits, result) in
  let total := fun (st : Z * Z * list Z) =>
    CodecView.number 32 (snd st) * 2 ^ snd (fst st)
    + fst (fst st) mod 2 ^ snd (fst st) in
  0 <= snd (fst st) < 5 ->
  Forall (fun byte => 0 <= byte < 256) data ->
  total (fold_left step data st)
  = fold_left (fun acc digit => acc * 256 + digit) data (total st).
Proof.
  cbv zeta. revert st. induction data as [|byte data IH]; intros [[value bits] result];
    cbn [fst snd]; intros Hbits Hdata; [reflexivity|].
  inversion Hdata as [|? ? Hbyte Hrest]; subst.
  cbn [fold_left].
  pose proof (drain_step (Z.lor (Int32.shl value 8) byte) bits result Hbits) as Hstep.
  pose proof (drain_number (Z.to_nat (bits + 8)) (Z.lor (Int32.shl value 8) byte)
                (bits + 8) result) as Hnum.
  cbv zeta in Hstep, Hnum.
  destruct (Bech32.convert_drain (Z.to_nat (bits + 8))
              (Z.lor (Int32.shl value 8) byte) (bits + 8) 5 31 result)
    as [bits' result'] eqn:Hdrain.
  cbn [fst snd] in Hstep, Hnum. destruct Hstep as [Hbits' _].
  destruct Hnum as [_ Hnum]; [lia|].
  rewrite (IH (Z.lor (Int32.shl value 8) byte, bits', result')) by assumption.
  cbn [fst snd]. f_equal. rewrite Hnum, low_bits by lia.
  rewrite Z.pow_add_r by lia. change (2 ^ 8) with 256. ring.
Qed.

Lemma pad_word (value bits : Z) :
  0 < bits < 5 ->
  Z.land (Int32.shl value (5 - bits)) 31 = (value mod 2 ^ bits) * 2 ^ (5 - bits).
Proof.
  intros Hbits. change 31 with (Z.ones 5). rewrite Z.land_ones by lia.
  unfold Int32.shl. rewrite Z.shiftl_mul_pow2 by lia.
  destruct (wrap_mod (value * 2 ^ (5 - bits))) as [q ->].
  replace (value * 2 ^ (5 - bits) - 2 ^ 32 * q)
    with (value * 2 ^ (5 - bits) + (- (2 ^ 27 * q)) * 2 ^ 5)
    by (change (2 ^ 32) with (2 ^ 27 * 2 ^ 5); ring).
  rewrite Z.mod_add by lia.
  replace (2 ^ 5) with (2 ^ bits * 2 ^ (5 - bits)).
  - apply Z.mul_mod_distr_r.
    + apply Z.pow_nonzero; lia.
    + apply Z.pow_nonzero; lia.
  - rewrite <- Z.pow_add_r by lia. f_equal. lia.
Qed.

(** The words write the number that the bytes write, shifted left by the
    padding bits of the last word. *)
Lemma toWords_number (bytes : list Z) :
  Forall (fun byte => 0 <= byte < 256) bytes ->
  CodecView.number 32 (Bech32.toWords bytes)
  = CodecView.number 256 bytes
    * 2 ^ (5 * Z.of_nat (List.length (Bech32.toWords bytes))
           - 8 * Z.of_nat (List.length bytes)).
Proof.
  intros Hbytes. unfold Bech32.toWords, Bech32.convert_pad.
  change (Int32.shl 1 5 - 1) with 31.
  pose proof (convert_state bytes (0, 0, [])) as Hst.
  pose proof (convert_number bytes (0, 0, [])) as Hnum.
  cbv zeta in Hst, Hnum. cbn [fst snd List.length] in Hst, Hnum.
  destruct (fold_left _ bytes (0, 0, [])) as [[value bits] result].
  cbn [fst snd] in Hst, Hnum.
  destruct Hst as (Hbits & _ & Hlen); [lia|constructor|].
  specialize (Hnum ltac:(lia) Hbytes).
  change (CodecView.number 32 [] * 2 ^ 0 + 0 mod 2 ^ 0) with 0 in Hnum.
  fold (CodecView.number 256 bytes) in Hnum. rewrite <- Hnum.
  destruct (Z.ltb_spec 0 bits) as [Hpos|Hzero].
  - rewrite number_snoc, length_app, pad_word by lia. cbn [List.length].
    replace (5 * Z.of_nat (List.length result + 1) - 8 * Z.of_nat (List.length bytes))
      with (5 - bits) by lia.
    assert (H32 : 2 ^ bits * 2 ^ (5 - bits) = 32).
    { rewrite <- Z.pow_add_r by lia. replace (bits + (5 - bits)) with 5 by lia.
      reflexivity. }
    generalize (CodecView.number 32 result). intros total.
    rewrite <- H32. ring.
  - assert (bits = 0) by lia. subst bits.
    replace (5 * Z.of_nat (List.length result) - 8 * Z.of_nat (List.length bytes))
      with 0 by lia.
    change (2 ^ 0) with 1. rewrite Z.mod_1_r. ring.
Qed.

(** Different byte sequences have different words. *)
Lemma toWords_inj (bytes1 bytes2 : list Z) :
  Forall (fun byte => 0 <= byte < 256) bytes1 ->
  Forall (fun byte => 0 <= byte < 256) bytes2 ->
  Bech32.toWords bytes1 = Bech32.toWords bytes2 ->
  bytes1 = bytes2.
Proof.
  intros H1 H2 Heq.
  pose proof (proj2 (toWords_spec bytes1)) as Hl1.
  pose proof (proj2 (toWords_spec bytes2)) as Hl2.
  pose proof (toWords_number bytes1 H1) as Hn1.
  pose proof (toWords_number bytes2 H2) as Hn2.
  rewrite Heq in Hl1, Hn1.
  assert (Hlen : List.length bytes1 = List.length bytes2) by lia.
  rewrite Hlen in Hn1. rewrite Hn1 in Hn2.
  apply (number_inj 256); try assumption.
  apply Z.mul_cancel_r in Hn2; [exact Hn2|].
  apply Z.pow_nonzero; lia.
Qed.

End ToWordsNumber.

Section DataFacts.

Lemma alphabet_distinct (i j : nat) :
  i < 32 -> j < 32 ->
  String.get i Bech32.ALPHABET = String.get j Bech32.ALPHABET -> i = j.
Proof.
  intros Hi Hj Heq.
  assert (Hall : CodecView.distinctUpTo Bech32.ALPHABET 32 = true)
    by (vm_compute; reflexivity).
  unfold CodecView.distinctUpTo in Hall.
  rewrite List.forallb_forall in Hall.
  specialize (Hall i ltac:(apply List.in_seq; lia)).
  rewrite List.forallb_forall in Hall.
  specialize (Hall j ltac:(apply List.in_seq; lia)).
  apply orb_true_iff in Hall as [Hij|Hne].
  - apply Nat.eqb_eq, Hij.
  - rewrite bool_decide_eq_true_2 in Hne by exact Heq. discriminate.
Qed.

Lemma charAt_char (w : Z) :
  (0 <= w < 32)%Z ->
  exists c, Bech32.charAt Bech32.ALPHABET w = String c ""
            /\ String.get (Z.to_nat w) Bech32.ALPHABET = Some c.
Proof.
  intros Hw. unfold Bech32.charAt.
  destruct (Z.ltb_spec w 0); [lia|].
  destruct (alphabet_get (Z.to_nat w)) as [c Hc]; [lia|].
  rewrite Hc. exists c. split; reflexivity.
Qed.

Lemma dataPart_length (words : list Z) :
  Forall (fun w => (0 <= w < 32)%Z) words ->
  String.length (CodecView.dataPart words) = List.length words.
Proof.
  induction 1 as [|w words Hw _ IH]; [reflexivity|].
  cbn [CodecView.dataPart List.length].
  rewrite length_append, charAt_alphabet, IH by exact Hw. reflexivity.
Qed.

(** The data characters tell the words. *)
Lemma dataPart_inj (words1 words2 : list Z) (tail1 tail2 : string) :
  Forall (fun w => (0 <= w < 32)%Z) words1 ->
  Forall (fun w => (0 <= w < 32)%Z) words2 ->
  List.length words1 = List.length words2 ->
  CodecView.dataPart words1 +:+ tail1 = CodecView.dataPart words2 +:+ tail2 ->
  words1 = words2.
Proof.
  intros H1. revert words2.
  induction H1 as [|a words1 Ha _ IH]; intros words2 H2 Hlen Heq.
  - destruct words2; [reflexivity|discriminate].
  - destruct H2 as [|b words2 Hb H2]; [discriminate|].
    cbn [CodecView.dataPart] in Heq.
    destruct (charAt_char a Ha) as (ca & Hca & Hga).
    destruct (charAt_char b Hb) as (cb & Hcb & Hgb).
    rewrite Hca, Hcb in Heq.
    change (String ca (CodecView.dataPart words1 +:+ tail1)
            = String cb (CodecView.dataPart words2 +:+ tail2)) in Heq.
    injection Heq as Hc Hrest. subst cb.
    assert (Hab : Z.to_nat a = Z.to_nat b).
    { apply alphabet_distinct; [lia|lia|congruence]. }
    f_equal; [lia|].
    apply IH; [exact H2|cbn in Hlen; lia|exact Hrest].
Qed.

Lemma encode_words_data (words : list Z) (chk : Z) (result : string) :
  Forall (fun w => (0 <= w < 32)%Z) words ->
  exists chk',
    Bech32.encode_words words chk result
    = Normal (chk', result +:+ CodecView.dataPart words).
Proof.
  intros Hwords. revert chk result.
  induction Hwords as [|w words Hw _ IH]; intros chk result.
  - exists chk. cbn. rewrite append_empty_r. reflexivity.
  - cbn [Bech32.encode_words CodecView.dataPart].
    assert (Hsar : (Int32.sar w 5 =? 0)%Z = true).
    { apply Z.eqb_eq. unfold Int32.sar. rewrite Z.shiftr_div_pow2 by lia.
      apply Z.div_small. change (2 ^ 5)%Z with 32%Z. lia. }
    rewrite Hsar.
    destruct (IH (Z.lxor (Bech32.polymodStep chk) w)
                 (result +:+ Bech32.charAt Bech32.ALPHABET w)) as (chk' & ->).
    exists chk'. rewrite append_assoc. reflexivity.
Qed.

(** The encoding of up to 76 words: the prefix, the data characters of
    the words, six more characters. *)
Lemma encode_laconic_data (words : list Z) :
  Forall (fun w => (0 <= w < 32)%Z) words ->
  List.length words <= 76 ->
  exists tail,
    Bech32.encode "laconic" words
    = Normal ("laconic1" +:+ CodecView.dataPart words +:+ tail) /\
    String.length tail = 6.
Proof.
  intros Hwords Hle. unfold Bech32.encode. cbv zeta.
  change (Z.of_nat (String.length "laconic")) with 7%Z.
  change (Js.toLowerCase "laconic") with "laconic".
  destruct prefixChk_laconic as [chk ->].
  destruct (encode_words_data words chk ("laconic" +:+ "1") Hwords) as (chk' & ->).
  generalize (Z.lxor (Nat.iter 6 Bech32.polymodStep chk') 1). intros final.
  destruct (fold_append_chars
              (fun i => Bech32.charAt Bech32.ALPHABET
                          (Z.land (Int32.sar final ((5 - i) * 5)) 31))
              [0; 1; 2; 3; 4; 5]%Z (("laconic" +:+ "1") +:+ CodecView.dataPart words))
    as (tail & Htail & Htlen).
  { intros i. apply charAt_alphabet, land_31_bounds. }
  cbv beta in Htail. rewrite Htail. clear Htail.
  destruct (Z.ltb_spec 90 (7 + 7 + Z.of_nat (List.length words))) as [|_]; [lia|].
  exists tail. split; [|exact Htlen]. rewrite append_assoc. reflexivity.
Qed.

Lemma unhex_range (c : ascii) (v : Z) : Buffer.unhex c = Some v -> (0 <= v < 16)%Z.
Proof.
  unfold Buffer.unhex.
  repeat match goal with
         | |- context [if ?b then _ else _] => destruct b eqn:?
         end; intros [= <-]; lia.
Qed.

Lemma from_hex_bytes (s : string) :
  Forall (fun byte => (0 <= byte < 256)%Z) (Buffer.from_hex s) /\
  (forall a, Forall (fun byte => (0 <= byte < 256)%Z) (Buffer.from_hex (String a s))).
Proof.
  induction s as [|b s [IH1 IH2]].
  - split; [constructor|]. intros a. constructor.
  - split; [apply IH2|]. intros a. cbn [Buffer.from_hex].
    destruct (Buffer.unhex a) as [hi|] eqn:Ha; [|constructor].
    destruct (Buffer.unhex b) as [lo|] eqn:Hb; [|constructor].
    apply unhex_range in Ha, Hb. constructor; [lia|exact IH1].
Qed.

End DataFacts.

(** X23.  The codec tells addresses apart: two texts that decode to at
    most 47 bytes each and have the same encoding decode to the same
    bytes.  (Texts with the same bytes, such as the same digits in upper
    and in lower case, do share their encoding.) *)
Theorem hexToBech32_tells_addresses_apart (hex1 hex2 : string) :
  List.length (Buffer.from_hex hex1) <= 47 ->
  List.length (Buffer.from_hex hex2) <= 47 ->
  Applist.hexToBech32 hex1 = Applist.hexToBech32 hex2 ->
  Buffer.from_hex hex1 = Buffer.from_hex hex2.
Proof.
  intros Hn1 Hn2. unfold Applist.hexToBech32.
  destruct (toWords_spec (Buffer.from_hex hex1)) as [Hw1 Hl1].
  destruct (toWords_spec (Buffer.from_hex hex2)) as [Hw2 Hl2].
  destruct (encode_laconic_data _ Hw1) as (tail1 & -> & Ht1); [lia|].
  destruct (encode_laconic_data _ Hw2) as (tail2 & -> & Ht2); [lia|].
  intros Heq.
  change ("laconic1" +:+ ?x) with (String.append "laconic1" x) in Heq.
  apply (inj (String.append "laconic1")) in Heq.
  assert (Hlen : List.length (Bech32.toWords (Buffer.from_hex hex1))
                 = List.length (Bech32.toWords (Buffer.from_hex hex2))).
  { apply (f_equal String.length) in Heq.
    rewrite !length_append, !dataPart_length, Ht1, Ht2 in Heq by assumption. lia. }
  apply toWords_inj; try apply from_hex_bytes.
  exact (dataPart_inj _ _ _ _ Hw1 Hw2 Hlen Heq).
Qed.

(** X23, witness: the same address in upper and in lower case. *)
Lemma hexToBech32_tells_addresses_apart_witness :
  Buffer.from_hex "751E76E8199196D454941C45D1B3A323F1433BD6"
  = Buffer.from_hex "751e76e8199196d454941c45d1b3a323f1433bd6".
Proof.
  apply (hexToBech32_tells_addresses_apart
           "751E76E8199196D454941C45D1B3A323F1433BD6"
           "751e76e8199196d454941c45d1b3a323f1433bd6").
  - apply Nat.leb_le. vm_compute. reflexivity.
  - apply Nat.leb_le. vm_compute. reflexivity.
  - vm_compute. reflexivity.
Defined.
